(** * Credit-gated image enhancement gateway (App.py)

    A shallow embedding of [App.py]: the Airtable record store client, the
    credit ledger ([check_api_key_credits], [update_credits]), the usage
    logger ([log_api_call]), the call to the enhancement service
    ([enhance_image]), the file-name helper ([get_correct_filename]) and
    the Streamlit page ([main]).

    Python values are modelled as follows.
    - [int] is [Z]; [bytes] is [list byte]; [str] is [string] (the UTF-8
      bytes of the text, which is all that concatenation and equality need).
    - JSON objects received from the enhancement service and the log entry
      sent to the store are dictionaries: [gmap string jval].
    - An account record carries its ["id"], its [API_KEY] column (only the
      store reads it, when it evaluates the filter formula) and the number
      columns of its ["fields"] as a [gmap string Z].
    - Network calls, the clock and the Streamlit error banner are effects on
      an explicit [World], threaded by a small state-and-exception monad.

    What lies outside the program is modelled as follows.
    - The credit columns of the accounts table are number columns holding
      integers; a column that was never set is absent from ["fields"].
    - A request to a store is answered, or it fails: [requests] raises, or
      the store answers with an error status and no JSON body.  A body that
      is not JSON makes [response.json()] raise a [RequestException], as
      [requests] does since its version 2.27.
    - The enhancement service is a function from the payload to what the
      call does: it raises (connection error, timeout) or returns a response
      with its status, text and JSON body.
    - The clock counts hundredths of a second, so that
      [round(time.time() - start_time, 2)] is a difference of two readings.
    - [os.path.splitext] is the one of [posixpath].
    - What the user does on the page in one run (the key typed, the file
      selected, the options picked, the button clicked) and what PIL makes
      of some bytes are the inputs of [main]. *)

From Stdlib Require Import ZArith NArith Ascii String Strings.Byte List Bool Lia.
From stdpp Require Import base option list gmap strings pretty.

Open Scope string_scope.
Open Scope list_scope.
Open Scope Z_scope.

(** ** Python exceptions *)

Inductive exn : Type :=
| RequestException (msg : string)  (* requests: ConnectionError, Timeout, HTTPError, JSONDecodeError *)
| KeyError (key : string)
| TypeError (msg : string)
| ValueError (msg : string)
| BinasciiError (msg : string).

(** [isinstance(e, requests.exceptions.RequestException)] *)
Definition is_RequestException (e : exn) : bool :=
  match e with RequestException _ => true | _ => false end.

(** [str(e)] *)
Definition str_exn (e : exn) : string :=
  match e with
  | RequestException msg => msg
  | KeyError key => "'" +:+ key +:+ "'"
  | TypeError msg => msg
  | ValueError msg => msg
  | BinasciiError msg => msg
  end.

(** ** base64 (Python standard library)

    [base64.b64encode] and [base64.b64decode] with their default arguments.
    The encoder is the RFC 4648 one with ['='] padding.  The decoder follows
    [binascii.a2b_base64] in its non-strict mode: characters outside the
    alphabet are skipped, a pad sequence that completes a quad ends the
    decoding, and a quad left open at the end of the input is an error. *)

Module Base64.

Definition alphabet : list ascii :=
  list_ascii_of_string
    "ABCDEFGHIJKLMNOPQRSTUVWXYZabcdefghijklmnopqrstuvwxyz0123456789+/".

Definition BASE64_PAD : ascii := "="%char.

(** [table_b2a_base64[n]] *)
Definition b2a (n : N) : ascii :=
  nth (N.to_nat n) alphabet BASE64_PAD.

Fixpoint index_of (c : ascii) (l : list ascii) (i : N) : option N :=
  match l with
  | [] => None
  | x :: l' => if Ascii.eqb c x then Some i else index_of c l' (N.succ i)
  end.

(** [table_a2b_base64[c]]; [None] stands for the entries [>= 64]. *)
Definition a2b (c : ascii) : option N := index_of c alphabet 0%N.

(** Storing into an [unsigned char] keeps the low eight bits. *)
Definition to_byte (n : N) : byte :=
  default x00 (Byte.of_N (n mod 256)).

Definition enc3 (a b c : N) : list ascii :=
  [ b2a (N.shiftr a 2);
    b2a (N.lor (N.shiftl (N.land a 3) 4) (N.shiftr b 4));
    b2a (N.lor (N.shiftl (N.land b 15) 2) (N.shiftr c 6));
    b2a (N.land c 63) ].

Fixpoint encode_chars (bs : list byte) : list ascii :=
  match bs with
  | [] => []
  | [a] =>
      let a := Byte.to_N a in
      [ b2a (N.shiftr a 2); b2a (N.shiftl (N.land a 3) 4);
        BASE64_PAD; BASE64_PAD ]
  | [a; b] =>
      let a := Byte.to_N a in
      let b := Byte.to_N b in
      [ b2a (N.shiftr a 2);
        b2a (N.lor (N.shiftl (N.land a 3) 4) (N.shiftr b 4));
        b2a (N.shiftl (N.land b 15) 2); BASE64_PAD ]
  | a :: b :: c :: rest =>
      enc3 (Byte.to_N a) (Byte.to_N b) (Byte.to_N c) ++ encode_chars rest
  end.

(** [base64.b64encode(data).decode()] *)
Definition b64encode (data : list byte) : string :=
  string_of_list_ascii (encode_chars data).

(** The loop of [a2b_base64]: [quad_pos] counts the sextets of the open
    quad, [leftchar] holds the bits not yet written, [pads] counts the pad
    characters seen since the last sextet, [out] is the output so far. *)
Fixpoint a2b_loop (s : list ascii) (quad_pos leftchar pads : N)
         (out : list byte) : exn + list byte :=
  match s with
  | [] =>
      if (quad_pos =? 0)%N then inr out
      else if (quad_pos =? 1)%N then
        inl (BinasciiError
               ("Invalid base64-encoded string: number of data characters ("
                +:+ pretty (N.of_nat (length out) / 3 * 4 + 1)%N
                +:+ ") cannot be 1 more than a multiple of 4"))
      else inl (BinasciiError "Incorrect padding")
  | this_ch :: s' =>
      if Ascii.eqb this_ch BASE64_PAD then
        if (2 <=? quad_pos)%N then
          if (4 <=? quad_pos + (pads + 1))%N then inr out
          else a2b_loop s' quad_pos leftchar (pads + 1)%N out
        else a2b_loop s' quad_pos leftchar pads out
      else
        match a2b this_ch with
        | None => a2b_loop s' quad_pos leftchar pads out
        | Some v =>
            match quad_pos with
            | 0%N => a2b_loop s' 1%N v 0%N out
            | 1%N =>
                a2b_loop s' 2%N (N.land v 15) 0%N
                  (out ++ [to_byte (N.lor (N.shiftl leftchar 2) (N.shiftr v 4))])
            | 2%N =>
                a2b_loop s' 3%N (N.land v 3) 0%N
                  (out ++ [to_byte (N.lor (N.shiftl leftchar 4) (N.shiftr v 2))])
            | _ =>
                a2b_loop s' 0%N 0%N 0%N
                  (out ++ [to_byte (N.lor (N.shiftl leftchar 6) v)])
            end
        end
  end.

Definition is_ascii_char (c : ascii) : bool := (N_of_ascii c <? 128)%N.

(** [base64.b64decode(s)] for a [str] argument: the text is first encoded
    as ASCII, which fails on any other character. *)
Definition b64decode (s : string) : exn + list byte :=
  let chars := list_ascii_of_string s in
  if forallb is_ascii_char chars then a2b_loop chars 0%N 0%N 0%N []
  else inl (ValueError "string argument should contain only ASCII characters").

End Base64.

(** ** JSON values and Python conversions *)

Inductive jval : Type :=
| JNull
| JBool (b : bool)
| JNum (z : Z)
| JStr (s : string).

(** Truth value of a Python object, as tested by [if v:]. *)
Definition truthy (v : jval) : bool :=
  match v with
  | JNull => false
  | JBool b => b
  | JNum z => negb (z =? 0)
  | JStr s => negb (String.eqb s "")
  end.

(** [str(v)] *)
Definition py_str (v : jval) : string :=
  match v with
  | JNull => "None"
  | JBool true => "True"
  | JBool false => "False"
  | JNum z => pretty z
  | JStr s => s
  end.

(** [d.get(key)]: [None] when the key is absent. *)
Definition dict_get (d : gmap string jval) (key : string) : jval :=
  default JNull (d !! key).

(** ** The world outside the program *)

(** An account record of the store: its ["id"], the [API_KEY] column and
    the number columns of ["fields"]. *)
Record AccountRecord : Type := {
  acc_id : string;
  acc_key : string;
  acc_fields : gmap string Z
}.

Record LogRecord : Type := {
  log_id : string;
  log_fields : gmap string jval
}.

(** How a request to the record store can fail: no answer at all, or an
    answer with an error status and no JSON body. *)
Inductive fault : Type :=
| Unreachable (msg : string)
| Refused (status_code : Z) (reason : string).

(** The JSON body posted to the enhancement service. *)
Record Payload : Type := {
  p_image : string;
  p_scale : Z;
  p_format : string
}.

(** A [requests.Response]: [resp_json] is the result of [response.json()]. *)
Record Response (A : Type) : Type := {
  status_code : Z;
  resp_text : string;
  resp_json : exn + A
}.
Arguments status_code {A} _.
Arguments resp_text {A} _.
Arguments resp_json {A} _.

(** What the enhancement service does with a request: the call raises
    (connection error, timeout) or an HTTP response comes back. *)
Inductive Reply : Type :=
| Raises (e : exn)
| Responds (r : Response (gmap string jval)).

Inductive Request : Type :=
| GetAccounts (filter_formula : string)
| PatchAccount (record_id : string) (fields : gmap string Z)
| PostLog (fields : gmap string jval)
| PostEnhance (payload : Payload).

Record World : Type := {
  accounts : list AccountRecord;      (* table of the base AUTH_BASE_ID *)
  accounts_get_fault : option fault;
  accounts_patch_fault : option fault;
  log_table : list LogRecord;         (* table of the base LOGS_BASE_ID *)
  logs_post_fault : option fault;
  service : Payload -> Reply;         (* the service behind API_URL *)
  latency : Z;                        (* how long the service takes *)
  clock : Z;                          (* in hundredths of a second *)
  screen : list string;               (* messages shown by st.error *)
  sent : list Request                 (* requests issued, oldest first *)
}.

Definition with_accounts (l : list AccountRecord) (w : World) : World :=
  {| accounts := l;
     accounts_get_fault := accounts_get_fault w;
     accounts_patch_fault := accounts_patch_fault w;
     log_table := log_table w; logs_post_fault := logs_post_fault w;
     service := service w; latency := latency w; clock := clock w;
     screen := screen w; sent := sent w |}.

Definition with_log_table (l : list LogRecord) (w : World) : World :=
  {| accounts := accounts w;
     accounts_get_fault := accounts_get_fault w;
     accounts_patch_fault := accounts_patch_fault w;
     log_table := l; logs_post_fault := logs_post_fault w;
     service := service w; latency := latency w; clock := clock w;
     screen := screen w; sent := sent w |}.

Definition with_clock (t : Z) (w : World) : World :=
  {| accounts := accounts w;
     accounts_get_fault := accounts_get_fault w;
     accounts_patch_fault := accounts_patch_fault w;
     log_table := log_table w; logs_post_fault := logs_post_fault w;
     service := service w; latency := latency w; clock := t;
     screen := screen w; sent := sent w |}.

Definition with_screen (l : list string) (w : World) : World :=
  {| accounts := accounts w;
     accounts_get_fault := accounts_get_fault w;
     accounts_patch_fault := accounts_patch_fault w;
     log_table := log_table w; logs_post_fault := logs_post_fault w;
     service := service w; latency := latency w; clock := clock w;
     screen := l; sent := sent w |}.

Definition with_sent (l : list Request) (w : World) : World :=
  {| accounts := accounts w;
     accounts_get_fault := accounts_get_fault w;
     accounts_patch_fault := accounts_patch_fault w;
     log_table := log_table w; logs_post_fault := logs_post_fault w;
     service := service w; latency := latency w; clock := clock w;
     screen := screen w; sent := l |}.

(** ** Computations: state passing with exceptions *)

Definition M (A : Type) : Type := World -> (exn + A) * World.

Definition ret {A} (a : A) : M A := fun w => (inr a, w).

Definition bind {A B} (m : M A) (k : A -> M B) : M B :=
  fun w =>
    match m w with
    | (inr a, w') => k a w'
    | (inl e, w') => (inl e, w')
    end.

Definition raise {A} (e : exn) : M A := fun w => (inl e, w).

(** [try: body  except Exception as e: handler(e)] *)
Definition try_except {A} (body : M A) (handler : exn -> M A) : M A :=
  fun w =>
    match body w with
    | (inl e, w') => handler e w'
    | r => r
    end.

(** [try: body  except requests.exceptions.RequestException as e: ...] *)
Definition try_except_RequestException {A} (body : M A)
           (handler : exn -> M A) : M A :=
  try_except body
    (fun e => if is_RequestException e then handler e else raise e).

Notation "'let*' x ':=' m 'in' k" := (bind m (fun x => k))
  (at level 10, x name, m at level 100, k at level 200).
Notation "m ';;;' k" := (bind m (fun _ => k))
  (at level 100, k at level 200, right associativity).

(** Lifting a pure computation that may raise. *)
Definition lift {A} (r : exn + A) : M A :=
  match r with inl e => raise e | inr a => ret a end.

Definition modify (f : World -> World) : M unit := fun w => (inr tt, f w).
Definition gets {A} (f : World -> A) : M A := fun w => (inr (f w), w).

(** [st.error(msg)] *)
Definition st_error (msg : string) : M unit :=
  modify (fun w => with_screen (screen w ++ [msg]) w).

(** [time.time()], in hundredths of a second. *)
Definition time_time : M Z := gets clock.

Definition send (r : Request) : M unit :=
  modify (fun w => with_sent (sent w ++ [r]) w).

(** ** The record store, seen through [requests] *)

(** The store keeps the records on which the filter formula holds; the
    formulas of this program test the [API_KEY] column for equality. *)
Definition formula_holds (filter_formula : string) (r : AccountRecord) : bool :=
  String.eqb filter_formula ("{API_KEY} = '" +:+ acc_key r +:+ "'").

(** [response.json()] on a body that is not JSON. *)
Definition no_json : exn :=
  RequestException "Expecting value: line 1 column 1 (char 0)".

Definition refusal {A} (code : Z) (reason : string) : Response A :=
  {| status_code := code; resp_text := reason; resp_json := inl no_json |}.

Definition answer {A} (a : A) : Response A :=
  {| status_code := 200; resp_text := ""; resp_json := inr a |}.

(** [requests.get(url, headers=..., params=params)] on the accounts table;
    [params] holds [filterByFormula] when it was set. *)
Definition requests_get (params : option string)
  : M (Response (gmap string (list AccountRecord))) :=
  send (GetAccounts (default "" params)) ;;;
  let* fault := gets accounts_get_fault in
  match fault with
  | Some (Unreachable msg) => raise (RequestException msg)
  | Some (Refused code reason) => ret (refusal code reason)
  | None =>
      let* all := gets accounts in
      let found :=
        match params with
        | Some f => List.filter (formula_holds f) all
        | None => all
        end in
      ret (answer {[ "records" := found ]})
  end.

(** The store merges the posted columns into the record. *)
Definition patch_record (record_id : string) (fields : gmap string Z)
           (r : AccountRecord) : AccountRecord :=
  if String.eqb (acc_id r) record_id then
    {| acc_id := acc_id r; acc_key := acc_key r;
       acc_fields := fields ∪ acc_fields r |}
  else r.

(** [requests.patch(url, headers=..., json={"fields": fields})] *)
Definition requests_patch (record_id : string) (fields : gmap string Z)
  : M (Response AccountRecord) :=
  send (PatchAccount record_id fields) ;;;
  let* fault := gets accounts_patch_fault in
  match fault with
  | Some (Unreachable msg) => raise (RequestException msg)
  | Some (Refused code reason) => ret (refusal code reason)
  | None =>
      let* all := gets accounts in
      match List.find (fun r => String.eqb (acc_id r) record_id) all with
      | None => ret (refusal 404 "Not Found")
      | Some r =>
          modify (fun w => with_accounts
                             (map (patch_record record_id fields) all) w) ;;;
          ret (answer (patch_record record_id fields r))
      end
  end.

(** [requests.post(url, headers=..., json={"fields": fields})] on the log
    table: the store appends a record under a fresh id. *)
Definition requests_post_log (fields : gmap string jval)
  : M (Response LogRecord) :=
  send (PostLog fields) ;;;
  let* fault := gets logs_post_fault in
  match fault with
  | Some (Unreachable msg) => raise (RequestException msg)
  | Some (Refused code reason) => ret (refusal code reason)
  | None =>
      let* table := gets log_table in
      let r := {| log_id := "rec" +:+ pretty (length table);
                  log_fields := fields |} in
      modify (with_log_table (table ++ [r])) ;;;
      ret (answer r)
  end.

(** [requests.post(API_URL, json=payload, timeout=300)] *)
Definition requests_post_api (payload : Payload)
  : M (Response (gmap string jval)) :=
  send (PostEnhance payload) ;;;
  modify (fun w => with_clock (clock w + latency w) w) ;;;
  let* reply := gets (fun w => service w payload) in
  match reply with
  | Raises e => raise e
  | Responds r => ret r
  end.

(** [response.raise_for_status()]: an [HTTPError] for the statuses 400 to
    599. *)
Definition raise_for_status {A} (response : Response A) : M unit :=
  let code := status_code response in
  if (400 <=? code) && (code <? 600) then
    raise (RequestException
             (pretty code
              +:+ (if code <? 500 then " Client Error: " else " Server Error: ")
              +:+ resp_text response))
  else ret tt.

(** ** class AirtableClient

    The program builds two clients, one per base.  [get_records] and
    [update_record] are only called on the accounts client and
    [create_record] only on the logs client, and are modelled on these. *)

Definition get_records (filter_formula : string) : M (list AccountRecord) :=
  let params :=
    if String.eqb filter_formula "" then None else Some filter_formula in
  try_except_RequestException
    (let* response := requests_get params in
     raise_for_status response ;;;
     let* json := lift (resp_json response) in
     ret (default [] (json !! "records")))
    (fun e =>
       st_error ("Erreur lors de la récupération des données: " +:+ str_exn e) ;;;
       ret []).

Definition create_record (fields : gmap string jval) : M (option LogRecord) :=
  try_except_RequestException
    (let* response := requests_post_log fields in
     raise_for_status response ;;;
     let* json := lift (resp_json response) in
     ret (Some json))
    (fun e =>
       st_error ("Erreur lors de la création de l'enregistrement: " +:+ str_exn e) ;;;
       ret None).

Definition update_record (record_id : string) (fields : gmap string Z)
  : M (option AccountRecord) :=
  try_except_RequestException
    (let* response := requests_patch record_id fields in
     raise_for_status response ;;;
     let* json := lift (resp_json response) in
     ret (Some json))
    (fun e =>
       st_error ("Erreur lors de la mise à jour: " +:+ str_exn e) ;;;
       ret None).

(** ** Credit ledger *)

(** [f"{{API_KEY}} = '{api_key}'"] *)
Definition key_formula (api_key : string) : string :=
  "{API_KEY} = '" +:+ api_key +:+ "'".

(** The status is [Some true] (credits left), [Some false] (none left) or
    [None]. *)
Definition check_api_key_credits (api_key : string)
  : M (option bool * string) :=
  let filter_formula := key_formula api_key in
  let* records := get_records filter_formula in
  match records with
  | [] => ret (None, "Clé API non trouvée")
  | record :: _ =>
      let fields := acc_fields record in
      let used := default 0 (fields !! "Used_credits") in
      let allowed := default 0 (fields !! "Allowed_credits") in
      let remaining := allowed - used in
      if remaining <=? 0 then
        ret (Some false,
             "Plus de crédits restants (utilisés: " +:+ pretty used +:+ "/"
             +:+ pretty allowed +:+ ")")
      else
        ret (Some true,
             pretty remaining +:+ " crédits restants (utilisés: "
             +:+ pretty used +:+ "/" +:+ pretty allowed +:+ ")")
  end.

Definition update_credits (api_key : string) (increment : Z) : M unit :=
  let filter_formula := key_formula api_key in
  let* records := get_records filter_formula in
  match records with
  | record :: _ =>
      let current_used := default 0 (acc_fields record !! "Used_credits") in
      let new_used := current_used + increment in
      update_record (acc_id record) {[ "Used_credits" := new_used ]} ;;;
      ret tt
  | [] => ret tt
  end.

(** ** Usage logger *)

(** [str(x) if x else None] *)
Definition str_if (x : jval) : jval :=
  if truthy x then JStr (py_str x) else JNull.

(** The timestamp is kept as the clock reading; its ISO-8601 text is not
    modelled. *)
Definition log_api_call (api_key status : string)
           (original_size output_size : jval) (scale : Z)
           (format_type : string) (processing_time : Z)
           (error_message : jval) : M unit :=
  let* now := time_time in
  let log_entry : gmap string jval :=
    <[ "timestamp" := JNum now ]>
    (<[ "api_key" := JStr api_key ]>
    (<[ "status" := JStr status ]>
    (<[ "original_size" := str_if original_size ]>
    (<[ "output_size" := str_if output_size ]>
    (<[ "scale" := JNum scale ]>
    (<[ "format" := JStr format_type ]>
    (<[ "processing_time" := JNum processing_time ]>
    (<[ "error_message" := error_message ]> ∅)))))))) in
  create_record log_entry ;;;
  ret tt.

(** ** Enhancement call *)

(** [base64.b64decode(result["output_image"])] *)
Definition decode_output_image (result : gmap string jval)
  : exn + list byte :=
  match result !! "output_image" with
  | None => inl (KeyError "output_image")
  | Some (JStr s) => Base64.b64decode s
  | Some _ =>
      inl (TypeError "argument should be a bytes-like object or ASCII string")
  end.

Definition enhance_image (image_data : list byte) (api_key : string)
           (scale : Z) (format_type : string)
  : M (bool * option (list byte) * gmap string jval) :=
  let* start_time := time_time in
  try_except
    (let image_b64 := Base64.b64encode image_data in
     let payload :=
       {| p_image := image_b64; p_scale := scale; p_format := format_type |} in
     let* response := requests_post_api payload in
     let* t := time_time in
     let processing_time := t - start_time in
     if status_code response =? 200 then
       let* result := lift (resp_json response) in
       if truthy (dict_get result "success") then
         let* output_data := lift (decode_output_image result) in
         log_api_call api_key "success"
                      (dict_get result "original_size")
                      (dict_get result "output_size")
                      scale format_type processing_time JNull ;;;
         update_credits api_key 1 ;;;
         ret (true, Some output_data, result)
       else
         let error_msg := default (JStr "Erreur inconnue") (result !! "error") in
         log_api_call api_key "api_error" JNull JNull
                      scale format_type processing_time error_msg ;;;
         ret (false, None, {[ "error" := error_msg ]})
     else
       let error_msg :=
         "HTTP " +:+ pretty (status_code response) +:+ ": "
         +:+ resp_text response in
       log_api_call api_key "http_error" JNull JNull
                    scale format_type processing_time (JStr error_msg) ;;;
       ret (false, None, {[ "error" := JStr error_msg ]}))
    (fun e =>
       let* t := time_time in
       let processing_time := t - start_time in
       let error_msg := str_exn e in
       log_api_call api_key "exception" JNull JNull
                    scale format_type processing_time (JStr error_msg) ;;;
       ret (false, None, {[ "error" := JStr error_msg ]})).

(** ** File name of the download *)

Module PosixPath.

(** [p.rfind(c)] for a one-character [c]: the highest index, or [-1]. *)
Fixpoint rfind (c : ascii) (p : list ascii) : Z :=
  match p with
  | [] => -1
  | x :: p' =>
      let r := rfind c p' in
      if 0 <=? r then r + 1 else if Ascii.eqb x c then 0 else -1
  end.

(** The [while filenameIndex < dotIndex] loop of [genericpath._splitext]:
    is there a character other than the dot between the two indices?
    [todo] is [dotIndex - filenameIndex]. *)
Fixpoint has_stem (p : list ascii) (filenameIndex : Z) (todo : nat) : bool :=
  match todo with
  | O => false
  | S todo' =>
      match p !! Z.to_nat filenameIndex with
      | Some c =>
          if Ascii.eqb c "." then has_stem p (filenameIndex + 1) todo'
          else true
      | None => true
      end
  end.

(** [os.path.splitext(p)] of [posixpath]: [sep] is ["/"], there is no
    [altsep], [extsep] is ["."]. *)
Definition splitext (path : string) : string * string :=
  let p := list_ascii_of_string path in
  let sepIndex := rfind "/" p in
  let dotIndex := rfind "." p in
  if (sepIndex <? dotIndex)
     && has_stem p (sepIndex + 1) (Z.to_nat (dotIndex - (sepIndex + 1)))
  then (string_of_list_ascii (take (Z.to_nat dotIndex) p),
        string_of_list_ascii (drop (Z.to_nat dotIndex) p))
  else (path, "").

End PosixPath.

Definition get_correct_filename (original_filename : string) (scale : Z)
           (format_type : string) : string :=
  let base_name := fst (PosixPath.splitext original_filename) in
  let extension := if String.eqb format_type "JPEG" then "jpg" else "png" in
  pretty scale +:+ "x_" +:+ base_name +:+ "." +:+ extension.

(** * Vocabulary of the statements *)

(** ** Statuses of Check *)

Definition Ok : option bool := Some true.          (* credits_ok is True *)
Definition Exhausted : option bool := Some false.  (* credits_ok is False *)
Definition NotFound : option bool := None.         (* credits_ok is None *)

(** ** Accounts and credits *)

(** The first record of the accounts table whose [API_KEY] column holds the
    key: the record that [records[0]] denotes when the query is answered. *)
Definition stored_account (w : World) (api_key : string)
  : option AccountRecord :=
  List.find (fun r => String.eqb (acc_key r) api_key) (accounts w).

(** [usedCredits] of a record, as both ledger operations read it. *)
Definition used_credits (r : AccountRecord) : Z :=
  default 0 (acc_fields r !! "Used_credits").

Definition allowed_credits (r : AccountRecord) : Z :=
  default 0 (acc_fields r !! "Allowed_credits").

(** What [check_api_key_credits] returns for a record. *)
Definition credit_verdict (r : AccountRecord) : option bool * string :=
  let used := used_credits r in
  let allowed := allowed_credits r in
  if allowed - used <=? 0 then
    (Some false,
     "Plus de crédits restants (utilisés: " +:+ pretty used +:+ "/"
     +:+ pretty allowed +:+ ")")
  else
    (Some true,
     pretty (allowed - used) +:+ " crédits restants (utilisés: "
     +:+ pretty used +:+ "/" +:+ pretty allowed +:+ ")").

(** A record with the column [col] set to 0. *)
Definition with_zero (col : string) (r : AccountRecord) : AccountRecord :=
  {| acc_id := acc_id r; acc_key := acc_key r;
     acc_fields := <[ col := 0 ]> (acc_fields r) |}.

(** ** Requests and runs *)

Definition request_payload (image_data : list byte) (scale : Z)
           (format_type : string) : Payload :=
  {| p_image := Base64.b64encode image_data; p_scale := scale;
     p_format := format_type |}.

(** The world once the service has been called. *)
Definition after_call (p : Payload) (w : World) : World :=
  with_clock (clock w + latency w) (with_sent (sent w ++ [PostEnhance p]) w).

(** The failure result of [enhance_image] with the error message [msg]. *)
Definition failure (msg : jval)
  : exn + bool * option (list byte) * gmap string jval :=
  inr (false, None, {[ "error" := msg ]}).

(** The entry [log_api_call] builds carries the key, the status tag and the
    error message it was given. *)
Definition is_log_entry (e : gmap string jval) (api_key status : string)
           (error_message : jval) : Prop :=
  e !! "api_key" = Some (JStr api_key)
  /\ e !! "status" = Some (JStr status)
  /\ e !! "error_message" = Some error_message.

(** The two ways the create request for the entry [e] can run. *)
Inductive logged (w : World) (e : gmap string jval) : World -> Prop :=
| log_stored :
    logs_post_fault w = None ->
    logged w e
      (with_log_table
         (log_table w ++ [{| log_id := "rec" +:+ pretty (length (log_table w));
                             log_fields := e |}])
         (with_sent (sent w ++ [PostLog e]) w))
| log_dropped flt msg :
    logs_post_fault w = Some flt ->
    logged w e
      (with_screen (screen w ++ [msg]) (with_sent (sent w ++ [PostLog e]) w)).

(** The four ways [update_credits] can run. *)
Inductive credit_update (w : World) (api_key : string) (increment : Z)
  : World -> Prop :=
| update_query_failed flt msg :
    accounts_get_fault w = Some flt ->
    credit_update w api_key increment
      (with_screen (screen w ++ [msg])
         (with_sent (sent w ++ [GetAccounts (key_formula api_key)]) w))
| update_no_record :
    accounts_get_fault w = None -> stored_account w api_key = None ->
    credit_update w api_key increment
      (with_sent (sent w ++ [GetAccounts (key_formula api_key)]) w)
| update_write_failed r flt msg :
    accounts_get_fault w = None -> stored_account w api_key = Some r ->
    accounts_patch_fault w = Some flt ->
    credit_update w api_key increment
      (with_screen (screen w ++ [msg])
         (with_sent
            (sent w ++ [GetAccounts (key_formula api_key);
                        PatchAccount (acc_id r)
                          {[ "Used_credits" := used_credits r + increment ]}])
            w))
| update_written r :
    accounts_get_fault w = None -> stored_account w api_key = Some r ->
    accounts_patch_fault w = None ->
    credit_update w api_key increment
      (with_accounts
         (map (patch_record (acc_id r)
                 {[ "Used_credits" := used_credits r + increment ]})
              (accounts w))
         (with_sent
            (sent w ++ [GetAccounts (key_formula api_key);
                        PatchAccount (acc_id r)
                          {[ "Used_credits" := used_credits r + increment ]}])
            w)).

(** The audit entries the program has asked the log store to create. *)
Definition posted_logs (w : World) : list (gmap string jval) :=
  flat_map (fun q => match q with PostLog e => [e] | _ => [] end) (sent w).

(** The requests made to the accounts table. *)
Definition account_requests (w : World) : list Request :=
  List.filter
    (fun q => match q with
              | GetAccounts _ | PatchAccount _ _ => true
              | _ => false
              end) (sent w).

(** The entries held by the log store. *)
Definition stored_logs (w : World) : list (gmap string jval) :=
  map log_fields (log_table w).

(** The ways a call to the service fails, and the status tag of each. *)
Inductive failure_kind : Type :=
| TransportException
| HttpError
| ApiError.

Definition status_tag (kind : failure_kind) : string :=
  match kind with
  | TransportException => "exception"
  | HttpError => "http_error"
  | ApiError => "api_error"
  end.

Definition fails_as (reply : Reply) (kind : failure_kind) : Prop :=
  match kind with
  | TransportException => exists e, reply = Raises e
  | HttpError => exists r, reply = Responds r /\ status_code r <> 200
  | ApiError =>
      exists r result,
        reply = Responds r /\ status_code r = 200
        /\ resp_json r = inr result
        /\ truthy (dict_get result "success") = false
  end.

(** What a failed call leaves behind: one create request for the entry [e],
    stored when the log store accepts it, and untouched accounts. *)
Definition failure_trace (w w' : World) (e : gmap string jval) : Prop :=
  posted_logs w' = posted_logs w ++ [e]
  /\ (logs_post_fault w = None -> stored_logs w' = stored_logs w ++ [e])
  /\ (logs_post_fault w <> None -> log_table w' = log_table w)
  /\ accounts w' = accounts w
  /\ account_requests w' = account_requests w.

(** ** File names *)

(** No character of [s] is [c]. *)
Definition lacks (c : ascii) (s : string) : bool :=
  forallb (fun x => negb (Ascii.eqb x c)) (list_ascii_of_string s).

(** Some character of [s] is not [c]. *)
Definition has_other_than (c : ascii) (s : string) : bool :=
  existsb (fun x => negb (Ascii.eqb x c)) (list_ascii_of_string s).

(** [format_type == "JPEG"] picks the extension. *)
Definition extension_of (format_type : string) : string :=
  if String.eqb format_type "JPEG" then "jpg" else "png".

(** ** Sextets of base64 *)

Module Sextets.
Import Base64.

(** The two tables agree on the sextet [v], whose character is an ASCII
    character other than the pad. *)
Definition sextet_ok (v : N) : bool :=
  match a2b (b2a v) with
  | Some w => (w =? v)%N && negb (Ascii.eqb (b2a v) BASE64_PAD)
              && is_ascii_char (b2a v)
  | None => false
  end.

(** The sextets of a group of three bytes, as [enc3] builds them. *)
Definition hi6 (a : N) : N := N.shiftr a 2.
Definition mid1 (a b : N) : N := N.lor (N.shiftl (N.land a 3) 4) (N.shiftr b 4).
Definition mid2 (b c : N) : N := N.lor (N.shiftl (N.land b 15) 2) (N.shiftr c 6).
Definition lo6 (c : N) : N := N.land c 63.

(** What the decoder writes for the sextets of two neighbouring bytes [x]
    and [y]: the sextets are below 64 and the bytes come back. *)
Definition pair_ok (x y : N) : bool :=
  (hi6 x <? 64)%N && (mid1 x y <? 64)%N && (mid2 x y <? 64)%N
  && (lo6 y <? 64)%N
  && (N.lor (N.shiftl (hi6 x) 2) (N.shiftr (mid1 x y) 4) mod 256 =? x)%N
  && (N.land (mid1 x y) 15 =? N.shiftr y 4)%N
  && (N.lor (N.shiftl (N.shiftr x 4) 4) (N.shiftr (mid2 x y) 2) mod 256 =? x)%N
  && (N.lor (N.shiftl (N.land (mid2 x y) 3) 6) (lo6 y) mod 256 =? y)%N.

(** The same for the last byte of a group that is padded. *)
Definition single_ok (x : N) : bool :=
  (N.shiftl (N.land x 3) 4 <? 64)%N
  && (N.shiftl (N.land x 15) 2 <? 64)%N
  && (N.lor (N.shiftl (hi6 x) 2) (N.shiftr (N.shiftl (N.land x 3) 4) 4)
      mod 256 =? x)%N
  && (N.lor (N.shiftl (N.shiftr x 4) 4) (N.shiftr (N.shiftl (N.land x 15) 2) 2)
      mod 256 =? x)%N.

End Sextets.

(** ** Concrete worlds used by the examples *)

(** The account of the scenario: 3 credits used out of 5. *)
Definition account_K1 : AccountRecord :=
  {| acc_id := "recA"; acc_key := "K1";
     acc_fields := {[ "Used_credits" := 3; "Allowed_credits" := 5 ]} |}.

(** An account on which no credit column was ever set. *)
Definition account_blank : AccountRecord :=
  {| acc_id := "recB"; acc_key := "K2"; acc_fields := ∅ |}.

Definition make_world (table : list AccountRecord)
           (get_fault patch_fault post_fault : option fault)
           (srv : Payload -> Reply) : World :=
  {| accounts := table;
     accounts_get_fault := get_fault;
     accounts_patch_fault := patch_fault;
     log_table := []; logs_post_fault := post_fault;
     service := srv; latency := 250; clock := 1000;
     screen := []; sent := [] |}.

Definition service_down : Payload -> Reply :=
  fun _ => Raises (RequestException "Connection refused").

Definition service_503 : Payload -> Reply :=
  fun _ => Responds {| status_code := 503;
                       resp_text := "Service Unavailable";
                       resp_json := inl no_json |}.

(** Answers [{"success": false}], without an ["error"] field. *)
Definition service_rejects : Payload -> Reply :=
  fun _ => Responds {| status_code := 200;
                       resp_text := "rejected";
                       resp_json := inr {[ "success" := JBool false ]} |}.

Definition Man : list byte := ["M"%byte; "a"%byte; "n"%byte].

(** Answers with the three bytes [Man] as the enhanced image. *)
Definition service_enhances : Payload -> Reply :=
  fun _ => Responds {| status_code := 200;
                       resp_text := "";
                       resp_json :=
                         inr {[ "success" := JBool true;
                                "output_image" := JStr "TWFu";
                                "output_size" := JStr "8x8" ]} |}.

Definition store_unreachable : option fault :=
  Some (Unreachable "Connection timed out").

Definition store_refuses : option fault :=
  Some (Refused 503 "Service Unavailable").

Definition world_healthy (srv : Payload -> Reply) : World :=
  make_world [account_blank; account_K1] None None None srv.

Definition world_accounts_down : World :=
  make_world [account_K1] store_unreachable None None service_down.

Definition world_no_account : World :=
  make_world [account_blank] None None None service_down.

(** Both stores refuse writes while the service enhances the image. *)
Definition world_stores_down : World :=
  make_world [account_K1] None store_refuses store_unreachable
             service_enhances.

(** The log store refuses the entry of a call that fails in transport. *)
Definition world_logs_refuse : World :=
  make_world [account_K1] None None store_refuses service_down.

(** The log store is unreachable while the service answers 503. *)
Definition world_logs_unreachable : World :=
  make_world [account_K1] None None store_unreachable service_503.

(** ** Vocabulary of the further properties *)

(** The world after [n] calls of Check in a row. *)
Definition after_checks (api_key : string) (n : nat) (w : World) : World :=
  Nat.iter n (fun w => snd (check_api_key_credits api_key w)) w.

(** A response the program can use: status 200, a JSON body whose success is
    true in the Python sense, and an output_image that decodes. *)
Definition usable_reply (reply : Reply) : Prop :=
  exists r result bytes,
    reply = Responds r /\ status_code r = 200
    /\ resp_json r = inr result
    /\ truthy (dict_get result "success") = true
    /\ decode_output_image result = inr bytes.


(** The payloads sent to the enhancement service. *)
Definition service_requests (w : World) : list Payload :=
  flat_map (fun q => match q with PostEnhance p => [p] | _ => [] end) (sent w).

(** The entry [e] holds what [log_api_call] was given at the time [now]. *)
Definition entry_records (e : gmap string jval) (now : Z)
           (api_key status : string) (original_size output_size : jval)
           (scale : Z) (format_type : string) (processing_time : Z)
           (error_message : jval) : Prop :=
  e !! "timestamp" = Some (JNum now)
  /\ e !! "api_key" = Some (JStr api_key)
  /\ e !! "status" = Some (JStr status)
  /\ e !! "original_size" = Some (str_if original_size)
  /\ e !! "output_size" = Some (str_if output_size)
  /\ e !! "scale" = Some (JNum scale)
  /\ e !! "format" = Some (JStr format_type)
  /\ e !! "processing_time" = Some (JNum processing_time)
  /\ e !! "error_message" = Some error_message
  /\ size e = 9%nat.


(** An account with exactly one credit left. *)
Definition account_last_credit : AccountRecord :=
  {| acc_id := "recC"; acc_key := "K3";
     acc_fields := {[ "Used_credits" := 4; "Allowed_credits" := 5 ]} |}.

Definition world_last_credit : World :=
  make_world [account_K1; account_last_credit] None None None
             service_enhances.

(** ** The Streamlit page

    [main] is one run of the script.  What the widgets return in this run,
    and what PIL makes of a file, are its [Inputs]; [st.session_state], the
    world and the elements written to the page are its state.  Layout calls
    ([st.columns], [with col:], [st.spinner]) write nothing and are left
    out.  [st.error] writes to the [screen] of the world, like the one of the
    store client; the other elements are listed in [page]. *)

(** The file returned by [st.file_uploader]: [.name] and [.getvalue()]. *)
Record UploadedFile : Type := {
  uf_name : string;
  uf_value : list byte
}.

Record Inputs : Type := {
  text_input : string;                  (* the key typed in st.text_input *)
  file_uploader : option UploadedFile;  (* None: no file selected *)
  scale_choice : nat;                   (* position picked in the first selectbox *)
  format_choice : nat;                  (* position picked in the second one *)
  button : bool;                        (* st.button: clicked for this run *)
  Image_open : list byte -> string + Z * Z;
    (* PIL on these bytes: the size of the image, or the exception raised *)
  str_float : Z -> string
    (* the text of the float that counts this many hundredths *)
}.

(** [st.session_state]: an attribute is absent ([None]) or holds a value,
    which for three of them may be Python's [None]. *)
Record Session : Type := {
  image_processed : option bool;
  output_data : option (option (list byte));
  result : option (option (gmap string jval));
  processing_time : option (option Z);
  last_uploaded_file : option string
}.

Inductive Element : Type :=
| Title (body : string)
| Markdown (body : string)
| Header (body : string)
| Warning (body : string)
| Success (body : string)
| Info (body : string)
| TextInput (label : string)
| FileUploader (label : string)
| Selectbox (label : string)
| Button (label : string)
| Picture (caption : string)
| DownloadButton (label : string) (data : option (list byte))
                 (file_name mime : string).

Record App : Type := {
  world : World;
  session : Session;
  page : list Element
}.

(** How a run ends before the last line: a [return], [st.rerun()], or an
    exception nobody catches. *)
Inductive stop : Type :=
| Returned
| Rerun
| Uncaught (e : exn)
| UncaughtOther (name : string).

Definition Script (A : Type) : Type := Inputs -> App -> (stop + A) * App.

Definition s_ret {A} (a : A) : Script A := fun _ app => (inr a, app).

Definition s_bind {A B} (m : Script A) (k : A -> Script B) : Script B :=
  fun i app =>
    match m i app with
    | (inr a, app') => k a i app'
    | (inl s, app') => (inl s, app')
    end.

Notation "'let+' x ':=' m 'in' k" := (s_bind m (fun x => k))
  (at level 10, x name, m at level 100, k at level 200).
Notation "m ';;+' k" := (s_bind m (fun _ => k))
  (at level 100, k at level 200, right associativity).

Definition s_stop {A} (s : stop) : Script A := fun _ app => (inl s, app).

(** A call into the functions above; an exception of theirs is not caught. *)
Definition call {A} (m : M A) : Script A :=
  fun _ app =>
    match m (world app) with
    | (inr a, w') =>
        (inr a, {| world := w'; session := session app; page := page app |})
    | (inl e, w') =>
        (inl (Uncaught e),
         {| world := w'; session := session app; page := page app |})
    end.

Definition show (el : Element) : Script unit :=
  fun _ app =>
    (inr tt, {| world := world app; session := session app;
                page := page app ++ [el] |}).

Definition input {A} (f : Inputs -> A) : Script A := fun i app => (inr (f i), app).

Definition state {A} (f : Session -> A) : Script A :=
  fun _ app => (inr (f (session app)), app).

Definition set_state (f : Session -> Session) : Script unit :=
  fun _ app =>
    (inr tt, {| world := world app; session := f (session app);
                page := page app |}).

(** [st.session_state.name]: an [AttributeError] when the attribute is
    absent. *)
Definition attribute {A} (field : Session -> option A) : Script A :=
  let+ v := state field in
  match v with
  | Some a => s_ret a
  | None => s_stop (UncaughtOther "AttributeError")
  end.

(** [Image.open(f)], for its [.size]. *)
Definition PIL_Image_open (data : list byte) : Script (Z * Z) :=
  let+ opened := input (fun i => Image_open i data) in
  match opened with
  | inr size => s_ret size
  | inl name => s_stop (UncaughtOther name)
  end.

(** [st.selectbox(label, options, index=index)]: the option picked, or the
    one at [index] when nothing was picked. *)
Definition st_selectbox {A} (label : string) (options : list A) (index : nat)
           (choice : Inputs -> nat) : Script A :=
  show (Selectbox label) ;;+
  let+ picked := input choice in
  match options !! picked with
  | Some a => s_ret a
  | None =>
      match options !! index with
      | Some a => s_ret a
      | None => s_stop (UncaughtOther "StreamlitAPIException")
      end
  end.

(** [s.lower()] on ASCII text. *)
Definition ascii_lower (c : ascii) : ascii :=
  let n := N_of_ascii c in
  if (65 <=? n)%N && (n <=? 90)%N then ascii_of_N (n + 32) else c.

Fixpoint lower (s : string) : string :=
  match s with
  | EmptyString => EmptyString
  | String c s' => String (ascii_lower c) (lower s')
  end.

(** The four assignments that forget a result. *)
Definition forget_result (s : Session) : Session :=
  {| image_processed := Some false;
     output_data := Some None;
     result := Some None;
     processing_time := Some None;
     last_uploaded_file := last_uploaded_file s |}.

(** [result.get(key, default)] as text in an f-string. *)
Definition get_text (d : gmap string jval) (key fallback : string) : string :=
  py_str (default (JStr fallback) (d !! key)).

(** Lines 246 to 265: the credits of the key are checked on every run; the
    run stops there when no result is on display and the status is not Ok. *)
Definition credit_banner (api_key : string) : Script unit :=
  let+ already := state (fun s => default false (image_processed s)) in
  if negb already then
    let+ checked := call (check_api_key_credits api_key) in
    let credits_ok := fst checked in
    let credits_msg := snd checked in
    match credits_ok with
    | Some true => show (Success ("✅ " +:+ credits_msg))
    | Some false =>
        call (st_error ("❌ " +:+ credits_msg)) ;;+ s_stop Returned
    | None =>
        call (st_error ("❌ " +:+ credits_msg)) ;;+ s_stop Returned
    end
  else
    let+ checked := call (check_api_key_credits api_key) in
    let credits_ok := fst checked in
    let credits_msg := snd checked in
    match credits_ok with
    | Some false =>
        show (Warning
                ("⚠️ " +:+ credits_msg +:+
                 " - Vous pouvez encore voir votre dernière image générée ci-dessous"))
    | Some true => show (Success ("✅ " +:+ credits_msg))
    | None => show (Info "ℹ️ Statut des crédits non disponible")
    end.

(** Lines 306 to 322: the attributes are created on the first run, the
    result is forgotten when the name of the file has changed, and the name
    is remembered. *)
Definition remember_upload (uploaded_file : UploadedFile) : Script unit :=
  let+ known := state image_processed in
  (match known with
   | None => set_state forget_result
   | Some _ => s_ret tt
   end) ;;+
  let+ last := state last_uploaded_file in
  (match last with
   | Some name =>
       if negb (String.eqb name (uf_name uploaded_file))
       then set_state forget_result
       else s_ret tt
   | None => s_ret tt
   end) ;;+
  set_state (fun s =>
               {| image_processed := image_processed s;
                  output_data := output_data s;
                  result := result s;
                  processing_time := processing_time s;
                  last_uploaded_file := Some (uf_name uploaded_file) |}).

(** Lines 325 to 350: the button, and the call it triggers. *)
Definition process_upload (uploaded_file : UploadedFile) (api_key : string)
           (scale : Z) (format_type : string) : Script unit :=
  show (Button "✨ Améliorer l'image") ;;+
  let+ clicked := input button in
  if clicked then
    let+ start_time := call time_time in
    let img_bytes := uf_value uploaded_file in
    let+ outcome :=
      call (enhance_image img_bytes api_key scale format_type) in
    let success := fst (fst outcome) in
    let output := snd (fst outcome) in
    let details := snd outcome in
    let+ t := call time_time in
    let elapsed := t - start_time in
    if success then
      set_state (fun s =>
                   {| image_processed := Some true;
                      output_data := Some output;
                      result := Some (Some details);
                      processing_time := Some (Some elapsed);
                      last_uploaded_file := last_uploaded_file s |}) ;;+
      s_stop Rerun
    else
      call (st_error ("❌ Erreur lors du traitement: "
                      +:+ get_text details "error" "Erreur inconnue"))
  else s_ret tt.

(** Lines 351 to 368: the result on display and its download button. *)
Definition show_result (uploaded_file : UploadedFile) (scale : Z)
           (format_type : string) : Script unit :=
  let+ data := attribute output_data in
  let+ size := PIL_Image_open (default [] data) in
  let+ held := attribute result in
  match held with
  | None => s_stop (UncaughtOther "AttributeError")
  | Some details =>
      show (Picture ("Image améliorée ("
                     +:+ get_text details "output_size" "N/A" +:+ ")")) ;;+
      let filename :=
        get_correct_filename (uf_name uploaded_file) scale format_type in
      show (DownloadButton "💾 Télécharger l'image améliorée" data filename
                           ("image/" +:+ lower format_type))
  end.

(** Lines 370 to 383: the summary under a result. *)
Definition summary (scale : Z) : Script unit :=
  let+ done := state (fun s => default false (image_processed s)) in
  if done then
    show (Markdown "---") ;;+
    show (Header "📊 Résumé de l'opération") ;;+
    let+ held := attribute result in
    match held with
    | None => s_stop (UncaughtOther "AttributeError")
    | Some details =>
        show (Markdown ("**Taille originale:** "
                        +:+ get_text details "original_size" "N/A")) ;;+
        show (Markdown ("**Facteur d'agrandissement:** "
                        +:+ pretty scale +:+ "x")) ;;+
        show (Markdown ("**Nouvelle taille:** "
                        +:+ get_text details "output_size" "N/A")) ;;+
        let+ elapsed := attribute processing_time in
        let+ text :=
          match elapsed with
          | Some hundredths => input (fun i => str_float i hundredths)
          | None => s_ret "None"
          end in
        show (Markdown ("**Temps de traitement:** " +:+ text +:+ "s"))
    end
  else s_ret tt.

Definition main : Script unit :=
  show (Title "🖼️ Amélioration d'images IA") ;;+
  show (Markdown "*Augmentez la résolution et la qualité de vos images*") ;;+
  show (Markdown "---") ;;+
  show (Header "⚙️ Configuration") ;;+
  show (TextInput "🔑 Clé API") ;;+
  let+ api_key := input text_input in
  if String.eqb api_key "" then
    show (Warning "⚠️ Veuillez entrer votre clé API pour continuer") ;;+
    s_stop Returned
  else
    credit_banner api_key ;;+
    show (FileUploader "Choisir une image") ;;+
    let+ uploaded := input file_uploader in
    match uploaded with
    | None =>
        show (Info "📁 Veuillez sélectionner une image pour commencer") ;;+
        s_stop Returned
    | Some uploaded_file =>
        let+ scale :=
          st_selectbox "Facteur d'agrandissement" [2; 4; 8] 1 scale_choice in
        let+ format_type :=
          st_selectbox "Format de sortie" ["JPEG"; "PNG"] 0 format_choice in
        let+ size := PIL_Image_open (uf_value uploaded_file) in
        let new_width := fst size * scale in
        let new_height := snd size * scale in
        show (Info ("📐 Taille actuelle: " +:+ pretty (fst size) +:+ "x"
                    +:+ pretty (snd size) +:+ " → Nouvelle taille: "
                    +:+ pretty new_width +:+ "x" +:+ pretty new_height
                    +:+ " pixels")) ;;+
        show (Markdown "---") ;;+
        show (Header "📤 Image d'origine") ;;+
        show (Picture ("Image originale (" +:+ pretty (fst size) +:+ "x"
                       +:+ pretty (snd size) +:+ ")")) ;;+
        show (Header "📥 Image améliorée") ;;+
        remember_upload uploaded_file ;;+
        let+ processed := attribute image_processed in
        (if negb processed
         then process_upload uploaded_file api_key scale format_type
         else show_result uploaded_file scale format_type) ;;+
        summary scale
    end.

(** ** Vocabulary of the properties of the page *)

(** The element the credit check leaves on the page when the run goes on. *)
Definition banner (status : option bool) (msg : string) : Element :=
  match status with
  | Some true => Success ("✅ " +:+ msg)
  | Some false =>
      Warning ("⚠️ " +:+ msg +:+
               " - Vous pouvez encore voir votre dernière image générée ci-dessous")
  | None => Info "ℹ️ Statut des crédits non disponible"
  end.

(** The session once [remember_upload] has run. *)
Definition remembered (uploaded_file : UploadedFile) (s : Session) : Session :=
  let s1 :=
    match image_processed s with None => forget_result s | Some _ => s end in
  let s2 :=
    match last_uploaded_file s1 with
    | Some name =>
        if negb (String.eqb name (uf_name uploaded_file))
        then forget_result s1 else s1
    | None => s1
    end in
  {| image_processed := image_processed s2;
     output_data := output_data s2;
     result := result s2;
     processing_time := processing_time s2;
     last_uploaded_file := Some (uf_name uploaded_file) |}.



(** The page down to the text input. *)
Definition page_head : list Element :=
  [ Title "🖼️ Amélioration d'images IA";
    Markdown "*Augmentez la résolution et la qualité de vos images*";
    Markdown "---";
    Header "⚙️ Configuration";
    TextInput "🔑 Clé API" ].

(** From the credit banner down to the head of the right column. *)
Definition page_upload (status : option bool) (msg : string) (size : Z * Z)
           (scale : Z) : list Element :=
  [ banner status msg;
    FileUploader "Choisir une image";
    Selectbox "Facteur d'agrandissement";
    Selectbox "Format de sortie";
    Info ("📐 Taille actuelle: " +:+ pretty (fst size) +:+ "x"
          +:+ pretty (snd size) +:+ " → Nouvelle taille: "
          +:+ pretty (fst size * scale) +:+ "x" +:+ pretty (snd size * scale)
          +:+ " pixels");
    Markdown "---";
    Header "📤 Image d'origine";
    Picture ("Image originale (" +:+ pretty (fst size) +:+ "x"
             +:+ pretty (snd size) +:+ ")");
    Header "📥 Image améliorée" ].

(** The right column and the summary, once the upload is remembered. *)
Definition result_column (uploaded_file : UploadedFile) (api_key : string)
           (scale : Z) (format_type : string) : Script unit :=
  let+ processed := attribute image_processed in
  (if negb processed
   then process_upload uploaded_file api_key scale format_type
   else show_result uploaded_file scale format_type) ;;+
  summary scale.

(** The option a selectbox returns for the position picked. *)
Definition chosen {A} (options : list A) (index : nat) (fallback : A)
           (picked : nat) : A :=
  default (default fallback (options !! index)) (options !! picked).

(** The scale and the format the two selectboxes of [main] return. *)
Definition scale_of (i : Inputs) : Z := chosen [2; 4; 8] 1 4 (scale_choice i).

Definition format_of (i : Inputs) : string :=
  chosen ["JPEG"; "PNG"] 0 "JPEG" (format_choice i).

(** The run [r] started in [w] has sent nothing to the service and has left
    the two tables as they were. *)
Definition no_call (w : World) (r : (stop + unit) * App) : Prop :=
  service_requests (world (snd r)) = service_requests w
  /\ accounts (world (snd r)) = accounts w
  /\ log_table (world (snd r)) = log_table w.

(** No exception of the store client or of the service call ends [r]. *)
Definition caught {A} (r : (stop + A) * App) : Prop :=
  forall e, fst r <> inl (Uncaught e).

(** A part of the page that leaves the world alone. *)
Definition local {A} (m : Script A) (i : Inputs) : Prop :=
  forall app, world (snd (m i app)) = world app /\ caught (m i app).

(** ** Runs of the page used as examples *)

Definition photo : UploadedFile :=
  {| uf_name := "photo.jpeg"; uf_value := Man |}.


(** PIL reads every file that is not empty as an image of 2 by 3 pixels; the
    second position is picked in both selectboxes. *)
Definition run_inputs (key : string) (file : option UploadedFile)
           (clicked : bool) : Inputs :=
  {| text_input := key; file_uploader := file;
     scale_choice := 1; format_choice := 1; button := clicked;
     Image_open := fun data =>
                     match data with
                     | [] => inl "UnidentifiedImageError"
                     | _ => inr (2, 3)
                     end;
     str_float := fun hundredths => pretty hundredths |}.

Definition no_session : Session :=
  {| image_processed := None; output_data := None; result := None;
     processing_time := None; last_uploaded_file := None |}.

(** The first run of a session. *)
Definition first_run (w : World) : App :=
  {| world := w; session := no_session; page := [] |}.


(** The account of "K1" has used its five credits. *)
Definition account_spent : AccountRecord :=
  {| acc_id := "recA"; acc_key := "K1";
     acc_fields := {[ "Used_credits" := 5; "Allowed_credits" := 5 ]} |}.

Definition world_spent : World :=
  make_world [account_spent] None None None service_enhances.

(** * Proofs *)

(** ** Proof steps *)

(** Split a true conjunction of booleans into its parts. *)
Ltac split_andb H :=
  repeat match type of H with
         | (_ && _)%bool = true =>
             let H' := fresh H in apply andb_prop in H as [H H']
         end.

(** Turn the boolean tests on [N] among the hypotheses into propositions. *)
Ltac to_prop :=
  repeat match goal with
         | H : (_ <? _)%N = true |- _ => apply N.ltb_lt in H
         | H : (_ =? _)%N = true |- _ => apply N.eqb_eq in H
         end.

(** Unfold the operations of the monad. *)
Ltac run :=
  unfold try_except_RequestException, try_except, bind, ret, raise, lift,
    send, modify, gets, st_error, time_time.

(** ** base64 on examples *)

Example b64encode_Man :
  Base64.b64encode ["M"%byte; "a"%byte; "n"%byte] = "TWFu".
Proof. reflexivity. Qed.

Example b64encode_Ma :
  Base64.b64encode ["M"%byte; "a"%byte] = "TWE=".
Proof. reflexivity. Qed.

Example b64decode_skips_space :
  Base64.b64decode "T Q==" = inr ["M"%byte].
Proof. reflexivity. Qed.

Example b64decode_open_quad :
  Base64.b64decode "TWF" = inl (BinasciiError "Incorrect padding").
Proof. reflexivity. Qed.

(** ** Round trip of base64 *)

Module Base64Facts.
Import Base64 Sextets.

(** A property checked on every number below a bound holds below it. *)
Lemma forallb_below (n : nat) (P : N -> bool) :
  forallb P (map N.of_nat (seq 0 n)) = true ->
  forall x, (x < N.of_nat n)%N -> P x = true.
Proof.
  intros Hall x Hx.
  rewrite forallb_forall in Hall. apply Hall.
  rewrite in_map_iff. exists (N.to_nat x). split.
  - apply N2Nat.id.
  - apply in_seq. lia.
Qed.

Lemma sextet_table (v : N) :
  (v < 64)%N ->
  a2b (b2a v) = Some v /\ Ascii.eqb (b2a v) BASE64_PAD = false
  /\ is_ascii_char (b2a v) = true.
Proof.
  intros Hv.
  assert (H : sextet_ok v = true).
  { apply (forallb_below 64); [vm_compute; reflexivity | exact Hv]. }
  unfold sextet_ok in H. destruct (a2b (b2a v)) as [w|]; [|discriminate].
  apply andb_prop in H as [H Hascii]. apply andb_prop in H as [Hw Hpad].
  apply N.eqb_eq in Hw. subst w.
  rewrite negb_true_iff in Hpad. auto.
Qed.

Lemma all_pairs_ok :
  forallb (fun x => forallb (pair_ok x) (map N.of_nat (seq 0 256)))
          (map N.of_nat (seq 0 256)) = true.
Proof. vm_compute. reflexivity. Qed.

Lemma pair_facts (x y : N) :
  (x < 256)%N -> (y < 256)%N ->
  (hi6 x < 64)%N /\ (mid1 x y < 64)%N /\ (mid2 x y < 64)%N /\ (lo6 y < 64)%N
  /\ (N.lor (N.shiftl (hi6 x) 2) (N.shiftr (mid1 x y) 4) mod 256 = x)%N
  /\ N.land (mid1 x y) 15 = N.shiftr y 4
  /\ (N.lor (N.shiftl (N.shiftr x 4) 4) (N.shiftr (mid2 x y) 2) mod 256 = x)%N
  /\ (N.lor (N.shiftl (N.land (mid2 x y) 3) 6) (lo6 y) mod 256 = y)%N.
Proof.
  intros Hx Hy.
  assert (H : pair_ok x y = true).
  { apply (forallb_below 256 (pair_ok x)); [|exact Hy].
    apply (forallb_below 256
             (fun x => forallb (pair_ok x) (map N.of_nat (seq 0 256))));
      [exact all_pairs_ok | exact Hx]. }
  unfold pair_ok in H. split_andb H. to_prop. repeat split; assumption.
Qed.

Lemma single_facts (x : N) :
  (x < 256)%N ->
  (N.shiftl (N.land x 3) 4 < 64)%N /\ (N.shiftl (N.land x 15) 2 < 64)%N
  /\ (N.lor (N.shiftl (hi6 x) 2) (N.shiftr (N.shiftl (N.land x 3) 4) 4) mod 256 = x)%N
  /\ (N.lor (N.shiftl (N.shiftr x 4) 4) (N.shiftr (N.shiftl (N.land x 15) 2) 2) mod 256 = x)%N.
Proof.
  intros Hx.
  assert (H : single_ok x = true).
  { apply (forallb_below 256); [vm_compute; reflexivity | exact Hx]. }
  unfold single_ok in H. split_andb H. to_prop. repeat split; assumption.
Qed.

Lemma to_N_below (b : byte) : (Byte.to_N b < 256)%N.
Proof. pose proof (Byte.to_N_bounded b). lia. Qed.

Lemma to_byte_mod (n : N) (b : byte) :
  (n mod 256 = Byte.to_N b)%N -> to_byte n = b.
Proof. intros H. unfold to_byte. rewrite H, Byte.of_to_N. reflexivity. Qed.

(** One turn of the decoder loop on the character of a sextet. *)
Lemma a2b_loop_sextet (v : N) (s : list ascii) (quad_pos leftchar pads : N)
      (out : list byte) :
  (v < 64)%N ->
  a2b_loop (b2a v :: s) quad_pos leftchar pads out =
  match quad_pos with
  | 0%N => a2b_loop s 1%N v 0%N out
  | 1%N => a2b_loop s 2%N (N.land v 15) 0%N
             (out ++ [to_byte (N.lor (N.shiftl leftchar 2) (N.shiftr v 4))])
  | 2%N => a2b_loop s 3%N (N.land v 3) 0%N
             (out ++ [to_byte (N.lor (N.shiftl leftchar 4) (N.shiftr v 2))])
  | _ => a2b_loop s 0%N 0%N 0%N
             (out ++ [to_byte (N.lor (N.shiftl leftchar 6) v)])
  end.
Proof.
  intros Hv. destruct (sextet_table v Hv) as (Hval & Hpad & _).
  cbn [a2b_loop]. rewrite Hpad, Hval. reflexivity.
Qed.

(** A full group: four sextets give back the three bytes. *)
Lemma a2b_loop_enc3 (a b c : byte) (s : list ascii) (leftchar pads : N)
      (out : list byte) :
  a2b_loop (enc3 (Byte.to_N a) (Byte.to_N b) (Byte.to_N c) ++ s)
           0%N leftchar pads out =
  a2b_loop s 0%N 0%N 0%N (out ++ [a; b; c]).
Proof.
  pose proof (to_N_below a) as Ha. pose proof (to_N_below b) as Hb.
  pose proof (to_N_below c) as Hc.
  destruct (pair_facts _ _ Ha Hb) as (A1 & A2 & _ & _ & A5 & A6 & _ & _).
  destruct (pair_facts _ _ Hb Hc) as (_ & _ & B3 & B4 & _ & _ & B7 & B8).
  unfold hi6, mid1, mid2, lo6 in *. unfold enc3. cbn [app].
  rewrite (a2b_loop_sextet _ _ 0%N) by assumption.
  rewrite (a2b_loop_sextet _ _ 1%N) by assumption.
  rewrite (a2b_loop_sextet _ _ 2%N) by assumption.
  rewrite (a2b_loop_sextet _ _ 3%N) by assumption.
  rewrite A6.
  rewrite (to_byte_mod _ a A5), (to_byte_mod _ b B7), (to_byte_mod _ c B8).
  rewrite <- !app_assoc. reflexivity.
Qed.

(** Induction on a list three elements at a time. *)
Lemma list_ind3 {A : Type} (P : list A -> Prop) :
  P [] -> (forall x, P [x]) -> (forall x y, P [x; y]) ->
  (forall x y z l, P l -> P (x :: y :: z :: l)) ->
  forall l, P l.
Proof.
  intros H0 H1 H2 H3.
  fix rec 1.
  intros [|x [|y [|z l]]]; [apply H0 | apply H1 | apply H2 | apply H3, rec].
Qed.

Lemma a2b_loop_encode (bs : list byte) :
  forall leftchar pads out,
    a2b_loop (encode_chars bs) 0%N leftchar pads out = inr (out ++ bs).
Proof.
  induction bs as [|a|a b|a b c rest IH] using list_ind3;
    intros leftchar pads out.
  - cbn. rewrite app_nil_r. reflexivity.
  - pose proof (to_N_below a) as Ha.
    destruct (pair_facts _ _ Ha Ha) as (A1 & _).
    destruct (single_facts _ Ha) as (S1 & _ & S3 & _).
    unfold hi6 in *. cbn [encode_chars].
    rewrite (a2b_loop_sextet _ _ 0%N) by assumption.
    rewrite (a2b_loop_sextet _ _ 1%N) by assumption.
    rewrite (to_byte_mod _ a S3). reflexivity.
  - pose proof (to_N_below a) as Ha. pose proof (to_N_below b) as Hb.
    destruct (pair_facts _ _ Ha Hb) as (A1 & A2 & _ & _ & A5 & A6 & _).
    destruct (single_facts _ Hb) as (_ & S2 & _ & S4).
    unfold hi6, mid1 in *. cbn [encode_chars].
    rewrite (a2b_loop_sextet _ _ 0%N) by assumption.
    rewrite (a2b_loop_sextet _ _ 1%N) by assumption.
    rewrite (a2b_loop_sextet _ _ 2%N) by assumption.
    rewrite A6, (to_byte_mod _ a A5), (to_byte_mod _ b S4).
    cbn. rewrite <- app_assoc. reflexivity.
  - cbn [encode_chars]. rewrite a2b_loop_enc3, IH, <- app_assoc.
    reflexivity.
Qed.

Lemma encode_chars_ascii (bs : list byte) :
  forallb is_ascii_char (encode_chars bs) = true.
Proof.
  induction bs as [|a|a b|a b c rest IH] using list_ind3.
  - reflexivity.
  - pose proof (to_N_below a) as Ha.
    destruct (pair_facts _ _ Ha Ha) as (A1 & _).
    destruct (single_facts _ Ha) as (S1 & _).
    unfold hi6 in *. cbn [encode_chars forallb].
    rewrite (proj2 (proj2 (sextet_table _ A1))),
            (proj2 (proj2 (sextet_table _ S1))). reflexivity.
  - pose proof (to_N_below a) as Ha. pose proof (to_N_below b) as Hb.
    destruct (pair_facts _ _ Ha Hb) as (A1 & A2 & _).
    destruct (single_facts _ Hb) as (_ & S2 & _).
    unfold hi6, mid1 in *. cbn [encode_chars forallb].
    rewrite (proj2 (proj2 (sextet_table _ A1))),
            (proj2 (proj2 (sextet_table _ A2))),
            (proj2 (proj2 (sextet_table _ S2))). reflexivity.
  - pose proof (to_N_below a) as Ha. pose proof (to_N_below b) as Hb.
    pose proof (to_N_below c) as Hc.
    destruct (pair_facts _ _ Ha Hb) as (A1 & A2 & _).
    destruct (pair_facts _ _ Hb Hc) as (_ & _ & B3 & B4 & _).
    unfold hi6, mid1, mid2, lo6 in *.
    cbn [encode_chars enc3 app forallb].
    rewrite (proj2 (proj2 (sextet_table _ A1))),
            (proj2 (proj2 (sextet_table _ A2))),
            (proj2 (proj2 (sextet_table _ B3))),
            (proj2 (proj2 (sextet_table _ B4))), IH. reflexivity.
Qed.

(** [b64decode(b64encode(data)) == data] *)
Lemma b64decode_b64encode (data : list byte) :
  b64decode (b64encode data) = inr data.
Proof.
  unfold b64decode, b64encode.
  rewrite list_ascii_of_string_of_list_ascii, encode_chars_ascii.
  apply (a2b_loop_encode data 0%N 0%N []).
Qed.

End Base64Facts.

(** ** splitext on examples *)

Example splitext_tar_gz :
  PosixPath.splitext "archive.tar.gz" = ("archive.tar", ".gz").
Proof. reflexivity. Qed.

Example splitext_hidden : PosixPath.splitext ".bashrc" = (".bashrc", "").
Proof. reflexivity. Qed.

Example splitext_dotted_dir :
  PosixPath.splitext "a.b/photo" = ("a.b/photo", "").
Proof. reflexivity. Qed.

Example filename_jpeg : get_correct_filename "photo.png" 4 "JPEG" = "4x_photo.jpg".
Proof. reflexivity. Qed.

(** ** Running the store client *)

Lemma key_formula_nonempty (api_key : string) :
  String.eqb (key_formula api_key) "" = false.
Proof. reflexivity. Qed.

Lemma raise_for_status_cases {A} (r : Response A) (w : World) :
  raise_for_status r w = (inr tt, w)
  \/ exists msg, raise_for_status r w = (inl (RequestException msg), w).
Proof.
  unfold raise_for_status.
  destruct ((400 <=? status_code r) && (status_code r <? 600));
    [right; eexists; reflexivity | left; reflexivity].
Qed.

(** The store answers the query: the records selected by the formula. *)
Lemma get_records_answer (w : World) (f : string) :
  accounts_get_fault w = None -> String.eqb f "" = false ->
  get_records f w =
  (inr (List.filter (formula_holds f) (accounts w)),
   with_sent (sent w ++ [GetAccounts f]) w).
Proof.
  intros Hf Hne. unfold get_records, requests_get. rewrite Hne. run.
  cbn. rewrite Hf. cbn. rewrite lookup_singleton_eq. reflexivity.
Qed.

(** The query fails: an error banner and the empty list. *)
Lemma get_records_fault (w : World) (f : string) (flt : fault) :
  accounts_get_fault w = Some flt -> String.eqb f "" = false ->
  exists msg,
    get_records f w =
    (inr [], with_screen (screen w ++ [msg])
               (with_sent (sent w ++ [GetAccounts f]) w)).
Proof.
  intros Hf Hne. unfold get_records, requests_get. rewrite Hne. run.
  cbn. rewrite Hf. destruct flt as [msg|code reason]; cbn.
  - eexists. reflexivity.
  - destruct (raise_for_status_cases (@refusal (gmap string (list AccountRecord)) code reason)
                (with_sent (sent w ++ [GetAccounts f]) w)) as [H|[msg H]];
      rewrite H; cbn; eexists; reflexivity.
Qed.

Lemma update_record_fault (w : World) (record_id : string)
      (fields : gmap string Z) (flt : fault) :
  accounts_patch_fault w = Some flt ->
  exists msg,
    update_record record_id fields w =
    (inr None, with_screen (screen w ++ [msg])
                 (with_sent (sent w ++ [PatchAccount record_id fields]) w)).
Proof.
  intros Hf. unfold update_record, requests_patch. run.
  cbn. rewrite Hf. destruct flt as [msg|code reason]; cbn.
  - eexists. reflexivity.
  - destruct (raise_for_status_cases (@refusal AccountRecord code reason)
                (with_sent (sent w ++ [PatchAccount record_id fields]) w))
      as [H|[msg H]]; rewrite H; cbn; eexists; reflexivity.
Qed.

Lemma update_record_answer (w : World) (record_id : string)
      (fields : gmap string Z) (r : AccountRecord) :
  accounts_patch_fault w = None ->
  List.find (fun r => String.eqb (acc_id r) record_id) (accounts w) = Some r ->
  update_record record_id fields w =
  (inr (Some (patch_record record_id fields r)),
   with_accounts (map (patch_record record_id fields) (accounts w))
     (with_sent (sent w ++ [PatchAccount record_id fields]) w)).
Proof.
  intros Hf Hr. unfold update_record, requests_patch. run.
  cbn. rewrite Hf. cbn. rewrite Hr. reflexivity.
Qed.

Lemma create_record_fault (w : World) (fields : gmap string jval)
      (flt : fault) :
  logs_post_fault w = Some flt ->
  exists msg,
    create_record fields w =
    (inr None, with_screen (screen w ++ [msg])
                 (with_sent (sent w ++ [PostLog fields]) w)).
Proof.
  intros Hf. unfold create_record, requests_post_log. run.
  cbn. rewrite Hf. destruct flt as [msg|code reason]; cbn.
  - eexists. reflexivity.
  - destruct (raise_for_status_cases (@refusal LogRecord code reason)
                (with_sent (sent w ++ [PostLog fields]) w))
      as [H|[msg H]]; rewrite H; cbn; eexists; reflexivity.
Qed.

Lemma create_record_answer (w : World) (fields : gmap string jval) :
  logs_post_fault w = None ->
  create_record fields w =
  (inr (Some {| log_id := "rec" +:+ pretty (length (log_table w));
                log_fields := fields |}),
   with_log_table
     (log_table w ++ [{| log_id := "rec" +:+ pretty (length (log_table w));
                         log_fields := fields |}])
     (with_sent (sent w ++ [PostLog fields]) w)).
Proof.
  intros Hf. unfold create_record, requests_post_log. run.
  cbn. rewrite Hf. reflexivity.
Qed.

(** ** The account bound to a key *)

Lemma append_quote_inj (a b : string) :
  a +:+ "'" = b +:+ "'" -> a = b.
Proof.
  revert b. induction a as [|x a IH]; intros [|y b] H; cbn in H.
  - reflexivity.
  - injection H as _ H. destruct b; discriminate.
  - injection H as _ H. destruct a; discriminate.
  - injection H as -> H. f_equal. apply IH, H.
Qed.

Lemma formula_holds_key (api_key : string) (r : AccountRecord) :
  formula_holds (key_formula api_key) r = String.eqb (acc_key r) api_key.
Proof.
  unfold formula_holds, key_formula.
  destruct (String.eqb_spec (acc_key r) api_key) as [->|Hne].
  - apply String.eqb_refl.
  - apply String.eqb_neq. intros H. apply Hne.
    apply (inj (String.app "{API_KEY} = '")) in H.
    symmetry. apply append_quote_inj, H.
Qed.

Lemma filter_pointwise {A} (P Q : A -> bool) (l : list A) :
  (forall x, P x = Q x) -> List.filter P l = List.filter Q l.
Proof.
  intros H. induction l as [|y l IH]; cbn; [reflexivity|].
  rewrite H, IH. reflexivity.
Qed.

Lemma filter_find_Some {A} (P : A -> bool) (l : list A) (x : A) :
  List.find P l = Some x -> exists rest, List.filter P l = x :: rest.
Proof.
  induction l as [|y l IH]; cbn; [discriminate|].
  destruct (P y); intros H.
  - injection H as ->. eexists. reflexivity.
  - apply IH, H.
Qed.

Lemma filter_find_None {A} (P : A -> bool) (l : list A) :
  List.find P l = None -> List.filter P l = [].
Proof.
  induction l as [|y l IH]; cbn; [reflexivity|].
  destruct (P y); [discriminate | exact IH].
Qed.

Lemma selected_found (w : World) (api_key : string) (r : AccountRecord) :
  stored_account w api_key = Some r ->
  exists rest,
    List.filter (formula_holds (key_formula api_key)) (accounts w) = r :: rest.
Proof.
  unfold stored_account. intros H.
  rewrite (filter_pointwise _ _ _ (formula_holds_key api_key)).
  apply filter_find_Some, H.
Qed.

Lemma selected_none (w : World) (api_key : string) :
  stored_account w api_key = None ->
  List.filter (formula_holds (key_formula api_key)) (accounts w) = [].
Proof.
  unfold stored_account. intros H.
  rewrite (filter_pointwise _ _ _ (formula_holds_key api_key)).
  apply filter_find_None, H.
Qed.

(** ** Running the credit ledger *)

Lemma check_found (w : World) (api_key : string) (r : AccountRecord) :
  accounts_get_fault w = None -> stored_account w api_key = Some r ->
  check_api_key_credits api_key w =
  (inr (credit_verdict r),
   with_sent (sent w ++ [GetAccounts (key_formula api_key)]) w).
Proof.
  intros Hf Hr. destruct (selected_found _ _ _ Hr) as [rest Hsel].
  unfold check_api_key_credits, bind.
  rewrite (get_records_answer _ _ Hf (key_formula_nonempty api_key)), Hsel.
  unfold credit_verdict, used_credits, allowed_credits.
  destruct (_ <=? 0); reflexivity.
Qed.

Lemma check_not_found (w : World) (api_key : string) :
  accounts_get_fault w = None -> stored_account w api_key = None ->
  check_api_key_credits api_key w =
  (inr (None, "Clé API non trouvée"),
   with_sent (sent w ++ [GetAccounts (key_formula api_key)]) w).
Proof.
  intros Hf Hr. unfold check_api_key_credits, bind.
  rewrite (get_records_answer _ _ Hf (key_formula_nonempty api_key)).
  rewrite (selected_none _ _ Hr). reflexivity.
Qed.

Lemma check_fault (w : World) (api_key : string) (flt : fault) :
  accounts_get_fault w = Some flt ->
  exists msg,
    check_api_key_credits api_key w =
    (inr (None, "Clé API non trouvée"),
     with_screen (screen w ++ [msg])
       (with_sent (sent w ++ [GetAccounts (key_formula api_key)]) w)).
Proof.
  intros Hf.
  destruct (get_records_fault _ _ _ Hf (key_formula_nonempty api_key))
    as [msg Hrun].
  exists msg. unfold check_api_key_credits, bind. rewrite Hrun. reflexivity.
Qed.

Lemma find_id_of_stored (w : World) (api_key : string) (r : AccountRecord) :
  stored_account w api_key = Some r ->
  exists r0,
    List.find (fun x => String.eqb (acc_id x) (acc_id r)) (accounts w) = Some r0.
Proof.
  unfold stored_account. intros H. apply find_some in H as [Hin _].
  destruct (List.find _ (accounts w)) as [r0|] eqn:E; [eauto|].
  apply (find_none _ _ E) in Hin. rewrite String.eqb_refl in Hin. discriminate.
Qed.

Lemma update_credits_run (w : World) (api_key : string) (increment : Z) :
  exists w', update_credits api_key increment w = (inr tt, w')
             /\ credit_update w api_key increment w'.
Proof.
  unfold update_credits, bind.
  destruct (accounts_get_fault w) as [flt|] eqn:Hget.
  - destruct (get_records_fault _ _ _ Hget (key_formula_nonempty api_key))
      as [msg Hrun].
    rewrite Hrun. eexists. split; [reflexivity|].
    eapply update_query_failed; eassumption.
  - rewrite (get_records_answer _ _ Hget (key_formula_nonempty api_key)).
    destruct (stored_account w api_key) as [r|] eqn:Hr.
    + destruct (selected_found _ _ _ Hr) as [rest Hsel]. rewrite Hsel.
      fold (used_credits r).
      set (w1 := with_sent (sent w ++ [GetAccounts (key_formula api_key)]) w).
      destruct (accounts_patch_fault w) as [flt|] eqn:Hpatch.
      * destruct (update_record_fault w1 (acc_id r)
                    {[ "Used_credits" := used_credits r + increment ]} flt)
          as [msg Hrun]; [exact Hpatch|].
        rewrite Hrun. eexists. split; [reflexivity|].
        subst w1. cbn [sent with_sent]. rewrite <- app_assoc.
        apply (update_write_failed w api_key increment r flt msg);
          assumption.
      * destruct (find_id_of_stored _ _ _ Hr) as [r0 Hr0].
        rewrite (update_record_answer w1 (acc_id r) _ r0 Hpatch Hr0).
        eexists. split; [reflexivity|].
        subst w1. cbn [sent with_sent accounts]. rewrite <- app_assoc.
        apply (update_written w api_key increment r); assumption.
    + rewrite (selected_none _ _ Hr). eexists. split; [reflexivity|].
      apply update_no_record; assumption.
Qed.

(** ** Running the usage logger *)

Lemma log_api_call_run (w : World) (api_key status : string)
      (original_size output_size : jval) (scale : Z) (format_type : string)
      (processing_time : Z) (error_message : jval) :
  exists e w',
    log_api_call api_key status original_size output_size scale format_type
                 processing_time error_message w = (inr tt, w')
    /\ is_log_entry e api_key status error_message
    /\ logged w e w'.
Proof.
  unfold log_api_call, time_time, gets, bind.
  match goal with
  | |- context [create_record ?entry w] => set (e := entry)
  end.
  exists e.
  destruct (logs_post_fault w) as [flt|] eqn:Hf.
  - destruct (create_record_fault w e flt Hf) as [msg Hrun].
    rewrite Hrun. eexists. split; [reflexivity|]. split.
    + repeat split; reflexivity.
    + eapply log_dropped; eassumption.
  - rewrite (create_record_answer w e Hf).
    eexists. split; [reflexivity|]. split.
    + repeat split; reflexivity.
    + apply log_stored; assumption.
Qed.

(** ** Running the enhancement call *)

Lemma requests_post_api_run (p : Payload) (w : World) :
  requests_post_api p w =
  (match service w p with Raises e => inl e | Responds r => inr r end,
   after_call p w).
Proof.
  unfold requests_post_api, send, modify, gets, bind. cbn.
  destruct (service w p); reflexivity.
Qed.

(** Run the [log_api_call] at the head of the goal. *)
Ltac step_log e w' Hrun He Hlog :=
  match goal with
  | |- context [log_api_call ?k ?st ?os ?us ?sc ?ft ?pt ?em ?w] =>
      destruct (log_api_call_run w k st os us sc ft pt em)
        as (e & w' & Hrun & He & Hlog);
      rewrite Hrun
  end.

Section EnhancePaths.

Variables (w : World) (image_data : list byte) (api_key : string)
          (scale : Z) (format_type : string).

Local Abbreviation payload := (request_payload image_data scale format_type).
Local Abbreviation w1 := (after_call payload w).

Lemma enhance_exception (e0 : exn) :
  service w payload = Raises e0 ->
  exists e w',
    enhance_image image_data api_key scale format_type w =
    (failure (JStr (str_exn e0)), w')
    /\ is_log_entry e api_key "exception" (JStr (str_exn e0))
    /\ logged w1 e w'.
Proof.
  intros Hreply.
  unfold enhance_image, try_except, time_time, gets.
  unfold bind at 1. unfold bind at 1.
  fold (request_payload image_data scale format_type).
  rewrite requests_post_api_run, Hreply.
  unfold bind. step_log e w' Hrun He Hlog.
  exists e, w'. auto.
Qed.

Lemma enhance_http_error (r : Response (gmap string jval)) :
  service w payload = Responds r ->
  status_code r <> 200 ->
  exists e w',
    enhance_image image_data api_key scale format_type w =
    (failure (JStr ("HTTP " +:+ pretty (status_code r) +:+ ": "
                    +:+ resp_text r)), w')
    /\ is_log_entry e api_key "http_error"
         (JStr ("HTTP " +:+ pretty (status_code r) +:+ ": " +:+ resp_text r))
    /\ logged w1 e w'.
Proof.
  intros Hreply Hcode. apply Z.eqb_neq in Hcode.
  unfold enhance_image, try_except, time_time, gets.
  unfold bind at 1. unfold bind at 1.
  fold (request_payload image_data scale format_type).
  rewrite requests_post_api_run, Hreply.
  unfold bind. rewrite Hcode. step_log e w' Hrun He Hlog.
  exists e, w'. auto.
Qed.

Lemma enhance_bad_json (r : Response (gmap string jval)) (e0 : exn) :
  service w payload = Responds r ->
  status_code r = 200 -> resp_json r = inl e0 ->
  exists e w',
    enhance_image image_data api_key scale format_type w =
    (failure (JStr (str_exn e0)), w')
    /\ is_log_entry e api_key "exception" (JStr (str_exn e0))
    /\ logged w1 e w'.
Proof.
  intros Hreply Hcode Hjson.
  unfold enhance_image, try_except, time_time, gets.
  unfold bind at 1. unfold bind at 1.
  fold (request_payload image_data scale format_type).
  rewrite requests_post_api_run, Hreply.
  unfold bind. rewrite Hcode, Hjson. cbn [Z.eqb Pos.eqb lift raise].
  step_log e w' Hrun He Hlog.
  exists e, w'. auto.
Qed.

Lemma enhance_api_error (r : Response (gmap string jval))
      (result : gmap string jval) :
  service w payload = Responds r ->
  status_code r = 200 -> resp_json r = inr result ->
  truthy (dict_get result "success") = false ->
  exists e w',
    enhance_image image_data api_key scale format_type w =
    (failure (default (JStr "Erreur inconnue") (result !! "error")), w')
    /\ is_log_entry e api_key "api_error"
         (default (JStr "Erreur inconnue") (result !! "error"))
    /\ logged w1 e w'.
Proof.
  intros Hreply Hcode Hjson Hsuccess.
  unfold enhance_image, try_except, time_time, gets.
  unfold bind at 1. unfold bind at 1.
  fold (request_payload image_data scale format_type).
  rewrite requests_post_api_run, Hreply.
  unfold bind. rewrite Hcode, Hjson. cbn [Z.eqb Pos.eqb lift ret].
  rewrite Hsuccess. step_log e w' Hrun He Hlog.
  exists e, w'. auto.
Qed.

Lemma enhance_bad_image (r : Response (gmap string jval))
      (result : gmap string jval) (e0 : exn) :
  service w payload = Responds r ->
  status_code r = 200 -> resp_json r = inr result ->
  truthy (dict_get result "success") = true ->
  decode_output_image result = inl e0 ->
  exists e w',
    enhance_image image_data api_key scale format_type w =
    (failure (JStr (str_exn e0)), w')
    /\ is_log_entry e api_key "exception" (JStr (str_exn e0))
    /\ logged w1 e w'.
Proof.
  intros Hreply Hcode Hjson Hsuccess Hdecode.
  unfold enhance_image, try_except, time_time, gets.
  unfold bind at 1. unfold bind at 1.
  fold (request_payload image_data scale format_type).
  rewrite requests_post_api_run, Hreply.
  unfold bind. rewrite Hcode, Hjson. cbn [Z.eqb Pos.eqb lift ret].
  rewrite Hsuccess, Hdecode. cbn [lift raise].
  step_log e w' Hrun He Hlog.
  exists e, w'. auto.
Qed.

Lemma enhance_success (r : Response (gmap string jval))
      (result : gmap string jval) (output_data : list byte) :
  service w payload = Responds r ->
  status_code r = 200 -> resp_json r = inr result ->
  truthy (dict_get result "success") = true ->
  decode_output_image result = inr output_data ->
  exists e w2 w',
    enhance_image image_data api_key scale format_type w =
    (inr (true, Some output_data, result), w')
    /\ is_log_entry e api_key "success" JNull
    /\ logged w1 e w2
    /\ credit_update w2 api_key 1 w'.
Proof.
  intros Hreply Hcode Hjson Hsuccess Hdecode.
  unfold enhance_image, try_except, time_time, gets.
  unfold bind at 1. unfold bind at 1.
  fold (request_payload image_data scale format_type).
  rewrite requests_post_api_run, Hreply.
  unfold bind. rewrite Hcode, Hjson. cbn [Z.eqb Pos.eqb lift ret].
  rewrite Hsuccess, Hdecode. cbn [lift ret].
  step_log e w2 Hrun He Hlog.
  destruct (update_credits_run w2 api_key 1) as (w' & Hup & Hcredit).
  rewrite Hup.
  exists e, w2, w'. auto.
Qed.

End EnhancePaths.

(** ** What a run leaves behind *)

Lemma after_call_effect (p : Payload) (w : World) :
  accounts (after_call p w) = accounts w
  /\ log_table (after_call p w) = log_table w
  /\ accounts_get_fault (after_call p w) = accounts_get_fault w
  /\ accounts_patch_fault (after_call p w) = accounts_patch_fault w
  /\ logs_post_fault (after_call p w) = logs_post_fault w
  /\ posted_logs (after_call p w) = posted_logs w
  /\ account_requests (after_call p w) = account_requests w.
Proof.
  unfold posted_logs, account_requests, after_call. cbn.
  rewrite flat_map_app, List.filter_app. cbn. rewrite !app_nil_r. auto 10.
Qed.

Lemma logged_effect (w w' : World) (e : gmap string jval) :
  logged w e w' ->
  accounts w' = accounts w
  /\ accounts_get_fault w' = accounts_get_fault w
  /\ accounts_patch_fault w' = accounts_patch_fault w
  /\ posted_logs w' = posted_logs w ++ [e]
  /\ account_requests w' = account_requests w
  /\ (logs_post_fault w = None -> stored_logs w' = stored_logs w ++ [e])
  /\ (logs_post_fault w <> None -> log_table w' = log_table w).
Proof.
  intros [Hf|flt msg Hf]; unfold posted_logs, account_requests, stored_logs;
    cbn; rewrite flat_map_app, List.filter_app, ?map_app; cbn;
    rewrite !app_nil_r; repeat split; auto; congruence.
Qed.

Lemma find_map_patch (api_key record_id : string) (fields : gmap string Z)
      (l : list AccountRecord) :
  List.find (fun r => String.eqb (acc_key r) api_key)
            (map (patch_record record_id fields) l)
  = option_map (patch_record record_id fields)
      (List.find (fun r => String.eqb (acc_key r) api_key) l).
Proof.
  induction l as [|x l IH]; cbn; [reflexivity|].
  assert (Hk : acc_key (patch_record record_id fields x) = acc_key x).
  { unfold patch_record. destruct (String.eqb _ _); reflexivity. }
  rewrite Hk. destruct (String.eqb (acc_key x) api_key); [reflexivity | exact IH].
Qed.

Lemma used_after_patch (r : AccountRecord) (new_used : Z) :
  used_credits (patch_record (acc_id r) {[ "Used_credits" := new_used ]} r)
  = new_used.
Proof.
  unfold used_credits, patch_record. rewrite String.eqb_refl. cbn.
  rewrite (lookup_union_Some_l _ _ _ new_used); [reflexivity|].
  apply lookup_singleton_eq.
Qed.

Lemma credit_update_effect (w w' : World) (api_key : string) (increment : Z) :
  credit_update w api_key increment w' ->
  log_table w' = log_table w
  /\ posted_logs w' = posted_logs w
  /\ (forall r,
        accounts_get_fault w = None -> stored_account w api_key = Some r ->
        In (PatchAccount (acc_id r)
              {[ "Used_credits" := used_credits r + increment ]})
           (account_requests w')
        /\ (accounts_patch_fault w = None ->
            exists r', stored_account w' api_key = Some r'
                       /\ used_credits r' = used_credits r + increment)
        /\ (accounts_patch_fault w <> None -> accounts w' = accounts w))
  /\ (accounts_get_fault w <> None \/ stored_account w api_key = None ->
      accounts w' = accounts w
      /\ account_requests w'
         = account_requests w ++ [GetAccounts (key_formula api_key)]).
Proof.
  intros [flt msg Hget|Hget Hnone|r0 flt msg Hget Hr Hpatch|r0 Hget Hr Hpatch];
    unfold posted_logs, account_requests, stored_account in *; cbn;
    rewrite flat_map_app, List.filter_app; cbn; rewrite ?app_nil_r;
    (split; [reflexivity|]); (split; [reflexivity|]); split.
  - intros r H. congruence.
  - auto.
  - intros r _ H. congruence.
  - auto.
  - intros r _ H. assert (r = r0) as -> by congruence.
    split; [apply in_or_app; right; right; left; reflexivity|].
    split; [congruence | reflexivity].
  - intros [H|H]; congruence.
  - intros r _ H. assert (r = r0) as -> by congruence.
    split; [apply in_or_app; right; right; left; reflexivity|].
    split; [|congruence].
    intros _. rewrite find_map_patch, Hr. cbn. eexists. split; [reflexivity|].
    apply used_after_patch.
  - intros [H|H]; congruence.
Qed.

(** ** Credit ledger: the claims *)

(** C4. When the store answers and a record is bound to the key, Check
    computes [remaining = allowedCredits - usedCredits]; it returns Exhausted
    when [remaining <= 0] and Ok, with [remaining] in the message, when
    [remaining > 0]; with [remaining <= 0] it never returns Ok. *)
Theorem check_status_by_remaining (w : World) (api_key : string)
        (r : AccountRecord) :
  accounts_get_fault w = None ->
  stored_account w api_key = Some r ->
  let used := used_credits r in
  let allowed := allowed_credits r in
  let remaining := allowed - used in
  (remaining <= 0 ->
   fst (check_api_key_credits api_key w) =
   inr (Exhausted,
        "Plus de crédits restants (utilisés: " +:+ pretty used +:+ "/"
        +:+ pretty allowed +:+ ")"))
  /\ (0 < remaining ->
      fst (check_api_key_credits api_key w) =
      inr (Ok,
           pretty remaining +:+ " crédits restants (utilisés: "
           +:+ pretty used +:+ "/" +:+ pretty allowed +:+ ")"))
  /\ (remaining <= 0 ->
      forall msg, fst (check_api_key_credits api_key w) <> inr (Ok, msg)).
Proof.
  intros Hget Hr used allowed remaining.
  rewrite (check_found w api_key r Hget Hr). cbn [fst].
  unfold credit_verdict. fold used allowed remaining.
  destruct (Z.leb_spec remaining 0) as [Hle|Hgt].
  - split; [reflexivity|]. split; [lia|]. intros _ msg H. discriminate H.
  - split; [lia|]. split; [reflexivity|]. lia.
Qed.

(** The account of "K1", with 3 credits used out of 5, is reported Ok. *)
Lemma check_status_by_remaining_witness :
  accounts_get_fault (world_healthy service_down) = None
  /\ stored_account (world_healthy service_down) "K1" = Some account_K1
  /\ fst (check_api_key_credits "K1" (world_healthy service_down)) =
     inr (Ok, "2 crédits restants (utilisés: 3/5)").
Proof.
  split; [reflexivity|]. split; [reflexivity|].
  apply (check_status_by_remaining (world_healthy service_down) "K1"
           account_K1); [reflexivity | reflexivity | reflexivity].
Defined.

(** C5. For an account record with usedCredits = 3 and allowedCredits = 5
    bound to the key "K1", Check("K1") computes remaining = 2 and returns the
    status Ok with exactly the message
    "2 crédits restants (utilisés: 3/5)". *)
Theorem check_scenario_K1 (w : World) (r : AccountRecord) :
  accounts_get_fault w = None ->
  stored_account w "K1" = Some r ->
  acc_fields r !! "Used_credits" = Some 3 ->
  acc_fields r !! "Allowed_credits" = Some 5 ->
  allowed_credits r - used_credits r = 2
  /\ fst (check_api_key_credits "K1" w) =
     inr (Ok, "2 crédits restants (utilisés: 3/5)").
Proof.
  intros Hget Hr Hused Hallowed.
  rewrite (check_found w "K1" r Hget Hr). cbn [fst].
  unfold credit_verdict, allowed_credits, used_credits.
  rewrite Hused, Hallowed. split; reflexivity.
Qed.

(** The scenario in a world whose accounts table holds that record. *)
Lemma check_scenario_K1_witness :
  allowed_credits account_K1 - used_credits account_K1 = 2
  /\ fst (check_api_key_credits "K1" (world_healthy service_down)) =
     inr (Ok, "2 crédits restants (utilisés: 3/5)").
Proof.
  apply (check_scenario_K1 (world_healthy service_down) account_K1);
    reflexivity.
Defined.

(** C3, as the code has it.  When the query of Check fails, at the transport
    level or with an error response, Check does not raise: it returns the
    status [None] with the message "Clé API non trouvée", which is exactly
    what it returns when the store answers and no record matches the key.
    The failure shows only in the error banner of the store client; the
    accounts are left as they were. *)
Theorem check_store_failure_reads_as_not_found (w : World)
        (api_key : string) (flt : fault) :
  accounts_get_fault w = Some flt ->
  fst (check_api_key_credits api_key w) = inr (NotFound, "Clé API non trouvée")
  /\ (forall w0 : World,
        accounts_get_fault w0 = None -> stored_account w0 api_key = None ->
        fst (check_api_key_credits api_key w0)
        = fst (check_api_key_credits api_key w))
  /\ (exists msg,
        screen (snd (check_api_key_credits api_key w)) = screen w ++ [msg])
  /\ accounts (snd (check_api_key_credits api_key w)) = accounts w.
Proof.
  intros Hget. destruct (check_fault w api_key flt Hget) as [msg Hrun].
  rewrite Hrun. cbn [fst snd]. split; [reflexivity|]. split.
  - intros w0 H0 Hnone. rewrite (check_not_found w0 api_key H0 Hnone).
    reflexivity.
  - split; [exists msg; reflexivity | reflexivity].
Qed.

(** The accounts store times out while a record for "K1" exists. *)
Lemma check_store_failure_reads_as_not_found_witness :
  accounts_get_fault world_accounts_down = store_unreachable
  /\ fst (check_api_key_credits "K1" world_accounts_down)
     = inr (NotFound, "Clé API non trouvée").
Proof.
  split; [reflexivity|].
  exact (proj1 (check_store_failure_reads_as_not_found world_accounts_down
                  "K1" (Unreachable "Connection timed out") eq_refl)).
Defined.

(** C3 as stated fails: with the accounts store unreachable, Check("K1")
    returns the very status and message it returns for a key that no record
    holds, although a record for "K1" exists. *)
Lemma check_unavailable_not_distinct :
  stored_account world_accounts_down "K1" = Some account_K1
  /\ accounts_get_fault world_accounts_down
     = Some (Unreachable "Connection timed out")
  /\ accounts_get_fault world_no_account = None
  /\ stored_account world_no_account "K1" = None
  /\ fst (check_api_key_credits "K1" world_accounts_down)
     = fst (check_api_key_credits "K1" world_no_account).
Proof. repeat split; reflexivity. Qed.

(** C8. For every key and delta, Increment queries the account again and
    returns normally, never raising.  If a record is found it writes
    usedCredits = currentUsedCredits + delta, and the account then holds that
    value when the store accepts the write.  If no record is found (or the
    query fails), or the write fails, the increment is dropped and the
    accounts are unchanged.  Whatever the ledger does, a successful
    enhancement is returned to the caller as it is. *)
Theorem update_credits_best_effort (w : World) (api_key : string) (delta : Z) :
  let w' := snd (update_credits api_key delta w) in
  fst (update_credits api_key delta w) = inr tt
  /\ In (GetAccounts (key_formula api_key)) (account_requests w')
  /\ (forall r,
        accounts_get_fault w = None -> stored_account w api_key = Some r ->
        In (PatchAccount (acc_id r)
              {[ "Used_credits" := used_credits r + delta ]})
           (account_requests w')
        /\ (accounts_patch_fault w = None ->
            exists r', stored_account w' api_key = Some r'
                       /\ used_credits r' = used_credits r + delta)
        /\ (accounts_patch_fault w <> None -> accounts w' = accounts w))
  /\ (accounts_get_fault w <> None \/ stored_account w api_key = None ->
      accounts w' = accounts w
      /\ account_requests w'
         = account_requests w ++ [GetAccounts (key_formula api_key)])
  /\ (forall image_data scale format_type r result output_data,
        service w (request_payload image_data scale format_type) = Responds r ->
        status_code r = 200 -> resp_json r = inr result ->
        truthy (dict_get result "success") = true ->
        decode_output_image result = inr output_data ->
        fst (enhance_image image_data api_key scale format_type w)
        = inr (true, Some output_data, result)).
Proof.
  destruct (update_credits_run w api_key delta) as (w' & Hrun & Hup).
  rewrite Hrun. cbn [fst snd].
  destruct (credit_update_effect _ _ _ _ Hup) as (_ & _ & Hfound & Hnone).
  split; [reflexivity|]. split.
  { destruct Hup; unfold account_requests; cbn;
      rewrite List.filter_app; apply in_or_app; right; left; reflexivity. }
  split; [exact Hfound|]. split; [exact Hnone|].
  intros image_data scale format_type r result output_data
         Hreply Hcode Hjson Hsuccess Hdecode.
  destruct (enhance_success w image_data api_key scale format_type r result
              output_data Hreply Hcode Hjson Hsuccess Hdecode)
    as (e & w2 & w3 & Hrun' & _).
  rewrite Hrun'. reflexivity.
Qed.

(** The increment on "K1" in a healthy store: 3 becomes 4. *)
Lemma update_credits_best_effort_witness :
  exists r',
    stored_account (snd (update_credits "K1" 1 (world_healthy service_down)))
                   "K1" = Some r'
    /\ used_credits r' = used_credits account_K1 + 1.
Proof.
  exact (proj1 (proj2 (proj1 (proj2 (proj2
           (update_credits_best_effort (world_healthy service_down) "K1" 1)))
           account_K1 eq_refl eq_refl)) eq_refl).
Defined.

Lemma verdict_with_zero (col : string) (r : AccountRecord) :
  acc_fields r !! col = None ->
  credit_verdict (with_zero col r) = credit_verdict r.
Proof.
  intros Habsent.
  assert (Hget : forall c, default 0 (acc_fields (with_zero col r) !! c)
                           = default 0 (acc_fields r !! c)).
  { intros c. cbn. destruct (decide (col = c)) as [->|Hne].
    - rewrite lookup_insert_eq, Habsent. reflexivity.
    - rewrite lookup_insert_ne by exact Hne. reflexivity. }
  unfold credit_verdict, used_credits, allowed_credits. rewrite !Hget.
  reflexivity.
Qed.

(** C10. A credit column absent from the record is read as 0 by Check and by
    Increment.  Check answers as it does for the record with the column set
    to 0; a record missing both columns is reported Exhausted with
    "(utilisés: 0/0)"; Increment on a record missing Used_credits writes
    usedCredits = delta. *)
Theorem missing_credit_fields_read_as_zero (w : World) (api_key : string)
        (r : AccountRecord) (delta : Z) :
  accounts_get_fault w = None ->
  stored_account w api_key = Some r ->
  (forall col w0,
     acc_fields r !! col = None ->
     accounts_get_fault w0 = None ->
     stored_account w0 api_key = Some (with_zero col r) ->
     fst (check_api_key_credits api_key w0)
     = fst (check_api_key_credits api_key w))
  /\ (acc_fields r !! "Used_credits" = None ->
      acc_fields r !! "Allowed_credits" = None ->
      fst (check_api_key_credits api_key w)
      = inr (Exhausted, "Plus de crédits restants (utilisés: 0/0)"))
  /\ (acc_fields r !! "Used_credits" = None ->
      let w' := snd (update_credits api_key delta w) in
      In (PatchAccount (acc_id r) {[ "Used_credits" := delta ]})
         (account_requests w')
      /\ (accounts_patch_fault w = None ->
          exists r', stored_account w' api_key = Some r'
                     /\ acc_fields r' !! "Used_credits" = Some delta)).
Proof.
  intros Hget Hr. split; [|split].
  - intros col w0 Habsent Hget0 Hr0.
    rewrite (check_found w0 api_key _ Hget0 Hr0),
            (check_found w api_key r Hget Hr).
    cbn [fst]. rewrite (verdict_with_zero col r Habsent). reflexivity.
  - intros Hused Hallowed. rewrite (check_found w api_key r Hget Hr).
    cbn [fst]. unfold credit_verdict, used_credits, allowed_credits.
    rewrite Hused, Hallowed. reflexivity.
  - intros Hused w'.
    destruct (update_credits_run w api_key delta) as (w1 & Hrun & Hup).
    subst w'. rewrite Hrun. cbn [snd].
    assert (Hzero : used_credits r + delta = delta).
    { unfold used_credits. rewrite Hused. cbn. lia. }
    inversion Hup as [flt msg Hg|Hg Hn|r0 flt msg Hg Hr0 Hp|r0 Hg Hr0 Hp];
      try congruence; subst w1;
      (assert (r0 = r) as -> by congruence); rewrite Hzero.
    + split; [|congruence].
      unfold account_requests. cbn. rewrite List.filter_app.
      apply in_or_app. right. right. left. reflexivity.
    + split.
      * unfold account_requests. cbn. rewrite List.filter_app.
        apply in_or_app. right. right. left. reflexivity.
      * intros _. unfold stored_account in *. cbn.
        rewrite find_map_patch, Hr. cbn. eexists. split; [reflexivity|].
        unfold patch_record. rewrite String.eqb_refl. cbn.
        apply lookup_union_Some_l, lookup_singleton_eq.
Qed.

(** The account of "K2" has no credit column: Check reports 0/0 and an
    increment by 7 writes 7. *)
Lemma missing_credit_fields_read_as_zero_witness :
  fst (check_api_key_credits "K2" (world_healthy service_down))
  = inr (Exhausted, "Plus de crédits restants (utilisés: 0/0)")
  /\ exists r',
       stored_account
         (snd (update_credits "K2" 7 (world_healthy service_down))) "K2"
       = Some r'
       /\ acc_fields r' !! "Used_credits" = Some 7.
Proof.
  pose proof (missing_credit_fields_read_as_zero
                (world_healthy service_down) "K2" account_blank 7
                eq_refl eq_refl) as (_ & Hcheck & Hinc).
  split.
  - exact (Hcheck eq_refl eq_refl).
  - exact (proj2 (Hinc eq_refl) eq_refl).
Defined.

(** ** Enhancement call: every run *)

Lemma logged_after_call (p : Payload) (w w' : World) (e : gmap string jval) :
  logged (after_call p w) e w' -> failure_trace w w' e.
Proof.
  intros Hlog.
  destruct (after_call_effect p w) as (Ha & Ht & Hg & Hp & Hl & Hposted & Hreq).
  destruct (logged_effect _ _ _ Hlog) as (La & Lg & Lp & Lposted & Lreq & Lok & Lko).
  unfold failure_trace, stored_logs in *.
  rewrite Hl, Ht in *. rewrite Lposted, Hposted, La, Ha, Lreq, Hreq.
  repeat split; auto.
Qed.

(** Every run of [enhance_image] returns: either a failure whose entry was
    sent to the log store, or the success path. *)
Lemma enhance_image_cases (w : World) (image_data : list byte)
      (api_key : string) (scale : Z) (format_type : string) :
  let w1 := after_call (request_payload image_data scale format_type) w in
  (exists msg tag e w',
      enhance_image image_data api_key scale format_type w = (failure msg, w')
      /\ is_log_entry e api_key tag msg /\ logged w1 e w')
  \/ (exists result output_data e w2 w',
         enhance_image image_data api_key scale format_type w =
         (inr (true, Some output_data, result), w')
         /\ is_log_entry e api_key "success" JNull
         /\ logged w1 e w2 /\ credit_update w2 api_key 1 w').
Proof.
  intros w1.
  destruct (service w (request_payload image_data scale format_type))
    as [e0|r] eqn:Hreply.
  { left.
    destruct (enhance_exception w image_data api_key scale format_type e0 Hreply)
      as (e & w' & H). eauto 10. }
  destruct (Z.eq_dec (status_code r) 200) as [Hcode|Hcode].
  2:{ left.
      destruct (enhance_http_error w image_data api_key scale format_type r
                  Hreply Hcode) as (e & w' & H). eauto 10. }
  destruct (resp_json r) as [e0|result] eqn:Hjson.
  { left.
    destruct (enhance_bad_json w image_data api_key scale format_type r e0
                Hreply Hcode Hjson) as (e & w' & H). eauto 10. }
  destruct (truthy (dict_get result "success")) eqn:Hsuccess.
  2:{ left.
      destruct (enhance_api_error w image_data api_key scale format_type r
                  result Hreply Hcode Hjson Hsuccess) as (e & w' & H).
      eauto 10. }
  destruct (decode_output_image result) as [e0|output_data] eqn:Hdecode.
  { left.
    destruct (enhance_bad_image w image_data api_key scale format_type r
                result e0 Hreply Hcode Hjson Hsuccess Hdecode)
      as (e & w' & H). eauto 10. }
  right.
  destruct (enhance_success w image_data api_key scale format_type r result
              output_data Hreply Hcode Hjson Hsuccess Hdecode)
    as (e & w2 & w' & H).
  exists result, output_data, e, w2, w'. exact H.
Qed.

(** No failure path touches the accounts. *)
Lemma failed_run_leaves_accounts (w : World) (image_data : list byte)
      (api_key : string) (scale : Z) (format_type : string)
      (out : option (list byte)) (details : gmap string jval) :
  fst (enhance_image image_data api_key scale format_type w)
  = inr (false, out, details) ->
  accounts (snd (enhance_image image_data api_key scale format_type w))
  = accounts w
  /\ account_requests (snd (enhance_image image_data api_key scale format_type w))
     = account_requests w.
Proof.
  intros Hres.
  destruct (enhance_image_cases w image_data api_key scale format_type)
    as [(msg & tag & e & w' & Hrun & _ & Hlog)
       |(result & output_data & e & w2 & w' & Hrun & _)].
  - rewrite Hrun. cbn [snd].
    destruct (logged_after_call _ _ _ _ Hlog) as (_ & _ & _ & Ha & Hreq).
    auto.
  - rewrite Hrun in Hres. discriminate Hres.
Qed.

Lemma decode_encoded_image (result : gmap string jval) (data : list byte) :
  result !! "output_image" = Some (JStr (Base64.b64encode data)) ->
  decode_output_image result = inr data.
Proof.
  intros H. unfold decode_output_image. rewrite H.
  apply Base64Facts.b64decode_b64encode.
Qed.

(** ** Enhancement call: the claims *)

(** C2, as the code has it.  A call that fails, by a transport exception, a
    status other than 200, or a 200 response whose success is false, returns
    ok = false and issues exactly one create request to the log store, for an
    entry whose status tag matches the failure kind.  The entry is stored
    when the log store accepts the request and dropped otherwise.  The
    accounts are not modified and no request goes to the accounts table:
    update_credits is not invoked. *)
Theorem failed_enhancement_is_logged_once (w : World) (image_data : list byte)
        (api_key : string) (scale : Z) (format_type : string)
        (kind : failure_kind) :
  fails_as (service w (request_payload image_data scale format_type)) kind ->
  exists msg e,
    fst (enhance_image image_data api_key scale format_type w) = failure msg
    /\ is_log_entry e api_key (status_tag kind) msg
    /\ failure_trace w
         (snd (enhance_image image_data api_key scale format_type w)) e.
Proof.
  intros Hfail. destruct kind; cbn in Hfail.
  - destruct Hfail as [e0 Hreply].
    destruct (enhance_exception w image_data api_key scale format_type e0 Hreply)
      as (e & w' & Hrun & He & Hlog).
    exists (JStr (str_exn e0)), e. rewrite Hrun. cbn [fst snd].
    split; [reflexivity|]. split; [exact He|].
    exact (logged_after_call _ _ _ _ Hlog).
  - destruct Hfail as (r & Hreply & Hcode).
    destruct (enhance_http_error w image_data api_key scale format_type r
                Hreply Hcode) as (e & w' & Hrun & He & Hlog).
    eexists _, e. rewrite Hrun. cbn [fst snd].
    split; [reflexivity|]. split; [exact He|].
    exact (logged_after_call _ _ _ _ Hlog).
  - destruct Hfail as (r & result & Hreply & Hcode & Hjson & Hsuccess).
    destruct (enhance_api_error w image_data api_key scale format_type r result
                Hreply Hcode Hjson Hsuccess) as (e & w' & Hrun & He & Hlog).
    eexists _, e. rewrite Hrun. cbn [fst snd].
    split; [reflexivity|]. split; [exact He|].
    exact (logged_after_call _ _ _ _ Hlog).
Qed.

(** The service cannot be reached, the stores are healthy. *)
Lemma failed_enhancement_is_logged_once_witness :
  exists msg e,
    fst (enhance_image Man "K1" 4 "JPEG" (world_healthy service_down))
    = failure msg
    /\ is_log_entry e "K1" "exception" msg
    /\ failure_trace (world_healthy service_down)
         (snd (enhance_image Man "K1" 4 "JPEG" (world_healthy service_down)))
         e.
Proof.
  apply (failed_enhancement_is_logged_once (world_healthy service_down) Man
           "K1" 4 "JPEG" TransportException).
  exists (RequestException "Connection refused"). reflexivity.
Defined.

(** C2 as stated fails: the service cannot be reached and the log store
    refuses the entry, so the failed call leaves the log store without any
    new entry. *)
Lemma failed_enhancement_may_leave_no_entry :
  let run := enhance_image Man "K1" 4 "JPEG" world_logs_refuse in
  fails_as (service world_logs_refuse (request_payload Man 4 "JPEG"))
           TransportException
  /\ fst run = failure (JStr "Connection refused")
  /\ stored_logs (snd run) = stored_logs world_logs_refuse
  /\ ~ (exists e, stored_logs (snd run) = stored_logs world_logs_refuse ++ [e]).
Proof.
  cbv zeta. split; [eexists; reflexivity|].
  split; [vm_compute; reflexivity|].
  assert (H : stored_logs
                (snd (enhance_image Man "K1" 4 "JPEG" world_logs_refuse)) = [])
    by (vm_compute; reflexivity).
  rewrite H. split; [reflexivity|].
  intros [e He]. discriminate He.
Qed.

(** C6, as the code has it.  When the service answers with a status other
    than 200, the call returns ok = false with the error message
    "HTTP <status>: <body>" (for 503 it starts with "HTTP 503"), issues
    exactly one create request to the log store for an entry with status
    "http_error" carrying that message, stored when the log store accepts
    it, and leaves the credits unchanged. *)
Theorem http_error_is_reported_and_logged (w : World) (image_data : list byte)
        (api_key : string) (scale : Z) (format_type : string)
        (r : Response (gmap string jval)) :
  service w (request_payload image_data scale format_type) = Responds r ->
  status_code r <> 200 ->
  let msg := "HTTP " +:+ pretty (status_code r) +:+ ": " +:+ resp_text r in
  fst (enhance_image image_data api_key scale format_type w)
  = inr (false, None, {[ "error" := JStr msg ]})
  /\ (status_code r = 503 -> msg = "HTTP 503: " +:+ resp_text r)
  /\ exists e,
       is_log_entry e api_key "http_error" (JStr msg)
       /\ failure_trace w
            (snd (enhance_image image_data api_key scale format_type w)) e.
Proof.
  intros Hreply Hcode msg.
  destruct (enhance_http_error w image_data api_key scale format_type r
              Hreply Hcode) as (e & w' & Hrun & He & Hlog).
  rewrite Hrun. cbn [fst snd]. split; [reflexivity|]. split.
  - intros H503. subst msg. rewrite H503. reflexivity.
  - exists e. split; [exact He | exact (logged_after_call _ _ _ _ Hlog)].
Qed.

(** The service answers 503 with the body "Service Unavailable". *)
Lemma http_error_is_reported_and_logged_witness :
  fst (enhance_image Man "K1" 4 "JPEG" (world_healthy service_503))
  = inr (false, None, {[ "error" := JStr "HTTP 503: Service Unavailable" ]}).
Proof.
  refine (proj1 (http_error_is_reported_and_logged
                   (world_healthy service_503) Man "K1" 4 "JPEG" _
                   eq_refl _)).
  discriminate.
Defined.

(** C6 as stated fails: the service answers 503 while the log store is
    unreachable; the call reports "HTTP 503" and no entry is created. *)
Lemma http_error_may_leave_no_entry :
  let run := enhance_image Man "K1" 4 "JPEG" world_logs_unreachable in
  fst run
  = inr (false, None, {[ "error" := JStr "HTTP 503: Service Unavailable" ]})
  /\ log_table (snd run) = []
  /\ ~ (exists e, stored_logs (snd run)
                  = stored_logs world_logs_unreachable ++ [e]).
Proof.
  cbv zeta. split; [vm_compute; reflexivity|].
  assert (H : log_table
                (snd (enhance_image Man "K1" 4 "JPEG" world_logs_unreachable))
              = []) by (vm_compute; reflexivity).
  split; [exact H|]. unfold stored_logs. rewrite H.
  intros [e He]. discriminate He.
Qed.

(** C7, as the code has it.  When the service answers 200 with a success
    that is false, the call fails with the tag "api_error", carrying the
    error text of the response as it is; when the response has no error
    field the message is "Erreur inconnue". *)
Theorem api_error_carries_server_text (w : World) (image_data : list byte)
        (api_key : string) (scale : Z) (format_type : string)
        (r : Response (gmap string jval)) (result : gmap string jval) :
  service w (request_payload image_data scale format_type) = Responds r ->
  status_code r = 200 ->
  resp_json r = inr result ->
  truthy (dict_get result "success") = false ->
  exists msg e,
    fst (enhance_image image_data api_key scale format_type w)
    = inr (false, None, {[ "error" := msg ]})
    /\ is_log_entry e api_key "api_error" msg
    /\ In e (posted_logs
               (snd (enhance_image image_data api_key scale format_type w)))
    /\ (forall text, result !! "error" = Some text -> msg = text)
    /\ (result !! "error" = None -> msg = JStr "Erreur inconnue").
Proof.
  intros Hreply Hcode Hjson Hsuccess.
  destruct (enhance_api_error w image_data api_key scale format_type r result
              Hreply Hcode Hjson Hsuccess) as (e & w' & Hrun & He & Hlog).
  exists (default (JStr "Erreur inconnue") (result !! "error")), e.
  rewrite Hrun. cbn [fst snd]. split; [reflexivity|]. split; [exact He|].
  split.
  - destruct (logged_after_call _ _ _ _ Hlog) as (Hposted & _).
    rewrite Hposted. apply in_or_app. right. left. reflexivity.
  - split; [intros text H | intros H]; rewrite H; reflexivity.
Qed.

(** The service answers 200 with success false and no error field. *)
Lemma api_error_carries_server_text_witness :
  exists msg e,
    fst (enhance_image Man "K1" 4 "JPEG" (world_healthy service_rejects))
    = inr (false, None, {[ "error" := msg ]})
    /\ is_log_entry e "K1" "api_error" msg
    /\ In e (posted_logs
               (snd (enhance_image Man "K1" 4 "JPEG"
                       (world_healthy service_rejects))))
    /\ (forall text,
          ({[ "success" := JBool false ]} : gmap string jval) !! "error"
          = Some text -> msg = text)
    /\ (({[ "success" := JBool false ]} : gmap string jval) !! "error" = None ->
        msg = JStr "Erreur inconnue").
Proof.
  exact (api_error_carries_server_text (world_healthy service_rejects) Man
           "K1" 4 "JPEG" _ _ eq_refl eq_refl eq_refl eq_refl).
Defined.

(** C7 as stated fails on the default: a 200 response with success false and
    no error field yields "Erreur inconnue", not "unknown error". *)
Lemma api_error_default_is_french :
  fst (enhance_image Man "K1" 4 "JPEG" (world_healthy service_rejects))
  = inr (false, None, {[ "error" := JStr "Erreur inconnue" ]})
  /\ JStr "Erreur inconnue" <> JStr "unknown error".
Proof. split; [vm_compute; reflexivity | discriminate]. Qed.

Lemma credit_update_queries (w w' : World) (api_key : string) (increment : Z) :
  credit_update w api_key increment w' ->
  In (GetAccounts (key_formula api_key)) (account_requests w').
Proof.
  intros Hup. destruct Hup; unfold account_requests; cbn;
    rewrite List.filter_app; apply in_or_app; right; left; reflexivity.
Qed.

Lemma credit_update_dropped (w w' : World) (api_key : string) (increment : Z) :
  credit_update w api_key increment w' ->
  accounts_get_fault w <> None \/ stored_account w api_key = None
  \/ accounts_patch_fault w <> None ->
  accounts w' = accounts w.
Proof.
  intros Hup Hwhy.
  destruct Hup as [flt msg Hget|Hget Hnone|r flt msg Hget Hr Hpatch
                  |r Hget Hr Hpatch]; cbn; try reflexivity.
  destruct Hwhy as [H|[H|H]]; congruence.
Qed.

(** C1, as the code has it.  When the service answers 200 with success true
    and an output_image that is the base64 text of N bytes, the call returns
    ok = true with these N bytes, the decoding of output_image.  It issues
    exactly one create request to the log store, for an entry with status
    "success", stored when the log store accepts it.  It then invokes the
    increment once, with delta 1: usedCredits of the account grows by
    exactly 1 when the account is found and the store accepts the write, and
    the accounts are unchanged otherwise.  No run that returns ok = false
    sends anything to the accounts table. *)
Theorem successful_enhancement (w : World) (image_data : list byte)
        (api_key : string) (scale : Z) (format_type : string)
        (r : Response (gmap string jval)) (result : gmap string jval)
        (output : list byte) (N : nat) :
  service w (request_payload image_data scale format_type) = Responds r ->
  status_code r = 200 ->
  resp_json r = inr result ->
  result !! "success" = Some (JBool true) ->
  result !! "output_image" = Some (JStr (Base64.b64encode output)) ->
  length output = N ->
  let run := enhance_image image_data api_key scale format_type w in
  let w' := snd run in
  (exists bytes,
      fst run = inr (true, Some bytes, result)
      /\ Base64.b64decode (Base64.b64encode output) = inr bytes
      /\ length bytes = N)
  /\ (exists e,
         is_log_entry e api_key "success" JNull
         /\ posted_logs w' = posted_logs w ++ [e]
         /\ (logs_post_fault w = None -> stored_logs w' = stored_logs w ++ [e])
         /\ (logs_post_fault w <> None -> log_table w' = log_table w))
  /\ In (GetAccounts (key_formula api_key)) (account_requests w')
  /\ (forall account,
        accounts_get_fault w = None ->
        stored_account w api_key = Some account ->
        accounts_patch_fault w = None ->
        exists account',
          stored_account w' api_key = Some account'
          /\ used_credits account' = used_credits account + 1)
  /\ (accounts_get_fault w <> None \/ stored_account w api_key = None
      \/ accounts_patch_fault w <> None ->
      accounts w' = accounts w)
  /\ (forall w0 data0 key0 scale0 format0 out details,
        fst (enhance_image data0 key0 scale0 format0 w0)
        = inr (false, out, details) ->
        accounts (snd (enhance_image data0 key0 scale0 format0 w0))
        = accounts w0
        /\ account_requests (snd (enhance_image data0 key0 scale0 format0 w0))
           = account_requests w0).
Proof.
  intros Hreply Hcode Hjson Hsuccess Himage Hlen run w'.
  assert (Htruthy : truthy (dict_get result "success") = true).
  { unfold dict_get. rewrite Hsuccess. reflexivity. }
  pose proof (decode_encoded_image result output Himage) as Hdecode.
  destruct (enhance_success w image_data api_key scale format_type r result
              output Hreply Hcode Hjson Htruthy Hdecode)
    as (e & w2 & w3 & Hrun & He & Hlog & Hup).
  subst w' run. rewrite Hrun. cbn [fst snd].
  destruct (logged_after_call _ _ _ _ Hlog) as (Hposted & Hok & Hko & Hacc & Hreq).
  destruct (logged_effect _ _ _ Hlog) as (_ & Lget & Lpatch & _).
  destruct (after_call_effect (request_payload image_data scale format_type) w)
    as (_ & _ & Aget & Apatch & _).
  rewrite Aget in Lget. rewrite Apatch in Lpatch.
  assert (Hstored : stored_account w2 api_key = stored_account w api_key).
  { unfold stored_account. rewrite Hacc. reflexivity. }
  destruct (credit_update_effect _ _ _ _ Hup) as (Ulog & Uposted & Ufound & _).
  split.
  { exists output. split; [reflexivity|]. split; [|exact Hlen].
    apply Base64Facts.b64decode_b64encode. }
  split.
  { exists e. split; [exact He|]. rewrite Uposted. split; [exact Hposted|].
    unfold stored_logs in *. rewrite Ulog. split; assumption. }
  split; [exact (credit_update_queries _ _ _ _ Hup)|].
  split.
  { intros account Hget Hr Hpatch.
    destruct (Ufound account) as (_ & Hwritten & _); [congruence..|].
    apply Hwritten. congruence. }
  split.
  { intros Hwhy. rewrite <- Hacc.
    apply (credit_update_dropped _ _ _ _ Hup).
    rewrite Lget, Hstored, Lpatch. exact Hwhy. }
  intros w0 data0 key0 scale0 format0 out details.
  apply failed_run_leaves_accounts.
Qed.

(** The service returns the three bytes of [Man]; with healthy stores
    usedCredits of "K1" goes from 3 to 4. *)
Lemma successful_enhancement_witness :
  let run := enhance_image [] "K1" 4 "JPEG" (world_healthy service_enhances) in
  (exists bytes,
      fst run = inr (true, Some bytes,
                     {[ "success" := JBool true;
                        "output_image" := JStr "TWFu";
                        "output_size" := JStr "8x8" ]})
      /\ Base64.b64decode (Base64.b64encode Man) = inr bytes
      /\ length bytes = 3%nat)
  /\ exists account',
       stored_account (snd run) "K1" = Some account'
       /\ used_credits account' = used_credits account_K1 + 1.
Proof.
  pose proof (successful_enhancement (world_healthy service_enhances) []
                "K1" 4 "JPEG" _ _ Man 3 eq_refl eq_refl eq_refl eq_refl
                eq_refl eq_refl) as (Hret & _ & _ & Hinc & _).
  split; [exact Hret|].
  exact (Hinc account_K1 eq_refl eq_refl eq_refl).
Defined.

(** C1 as stated fails: the service enhances the image while the log store
    is unreachable and the accounts store refuses the write.  The call
    returns ok = true with the image, no audit entry is created and
    usedCredits of "K1" is still 3. *)
Lemma successful_enhancement_may_not_be_charged :
  let run := enhance_image [] "K1" 4 "JPEG" world_stores_down in
  fst run = inr (true, Some Man,
                 {[ "success" := JBool true;
                    "output_image" := JStr (Base64.b64encode Man);
                    "output_size" := JStr "8x8" ]})
  /\ stored_logs (snd run) = []
  /\ used_credits account_K1 = 3
  /\ stored_account world_stores_down "K1" = Some account_K1
  /\ stored_account (snd run) "K1" = Some account_K1.
Proof. cbv zeta. repeat split; vm_compute; reflexivity. Qed.

(** ** File name of the download: the claim *)

Module PosixPathFacts.
Import PosixPath.

Lemma chars_app (a b : string) :
  list_ascii_of_string (a +:+ b)
  = list_ascii_of_string a ++ list_ascii_of_string b.
Proof.
  induction a as [|x a IH]; [reflexivity|].
  change (x :: list_ascii_of_string (a +:+ b)
          = x :: (list_ascii_of_string a ++ list_ascii_of_string b)).
  f_equal. exact IH.
Qed.

Lemma string_app (a b : list ascii) :
  string_of_list_ascii (a ++ b)
  = string_of_list_ascii a +:+ string_of_list_ascii b.
Proof.
  induction a as [|x a IH]; [reflexivity|].
  change (String x (string_of_list_ascii (a ++ b))
          = String x (string_of_list_ascii a +:+ string_of_list_ascii b)).
  f_equal. exact IH.
Qed.

Lemma rfind_absent (c : ascii) (p : list ascii) :
  forallb (fun x => negb (Ascii.eqb x c)) p = true -> rfind c p = -1.
Proof.
  induction p as [|x p IH]; cbn; [reflexivity|].
  intros H. apply andb_prop in H as [Hx Hp].
  rewrite (IH Hp). cbn. apply negb_true_iff in Hx. rewrite Hx. reflexivity.
Qed.

Lemma rfind_last (c : ascii) (before after : list ascii) :
  forallb (fun x => negb (Ascii.eqb x c)) after = true ->
  rfind c (before ++ c :: after) = Z.of_nat (length before).
Proof.
  intros Hafter. induction before as [|x before IH]; cbn [app rfind length].
  - rewrite (rfind_absent c after Hafter). cbn.
    rewrite Ascii.eqb_refl. reflexivity.
  - rewrite IH. destruct (Z.leb_spec 0 (Z.of_nat (length before))); lia.
Qed.

Lemma has_stem_found (p : list ascii) (k : nat) (ch : ascii) :
  p !! k = Some ch -> Ascii.eqb ch "." = false ->
  forall (todo i : nat),
    (i <= k < i + todo)%nat -> has_stem p (Z.of_nat i) todo = true.
Proof.
  intros Hk Hch. induction todo as [|todo IH]; intros i Hi; [lia|].
  cbn [has_stem]. rewrite Nat2Z.id.
  destruct (p !! i) as [c|] eqn:Hc; [|reflexivity].
  destruct (Ascii.eqb c ".") eqn:Hdot; [|reflexivity].
  assert (i <> k).
  { intros ->. rewrite Hk in Hc. injection Hc as ->. congruence. }
  replace (Z.of_nat i + 1) with (Z.of_nat (S i)) by lia.
  apply IH. lia.
Qed.

(** The two parts of [splitext] make up the path. *)
Lemma splitext_join (path : string) :
  fst (splitext path) +:+ snd (splitext path) = path.
Proof.
  unfold splitext.
  destruct (_ && _); cbn [fst snd].
  - rewrite <- string_app, take_drop. apply string_of_list_ascii_of_string.
  - clear. induction path as [|x path IH]; [reflexivity|].
    change (String x (path +:+ "") = String x path). f_equal. exact IH.
Qed.

(** A bare name [base.ext]: the extension is what follows the last dot. *)
Lemma splitext_bare (base ext : string) :
  lacks "/" base = true -> has_other_than "." base = true ->
  lacks "/" ext = true -> lacks "." ext = true ->
  splitext (base +:+ "." +:+ ext) = (base, "." +:+ ext).
Proof.
  unfold lacks, has_other_than. intros Hbase Hstem Hext_sep Hext_dot.
  unfold splitext. rewrite chars_app.
  change (list_ascii_of_string ("." +:+ ext))
    with ("."%char :: list_ascii_of_string ext).
  set (b := list_ascii_of_string base) in *.
  set (x := list_ascii_of_string ext) in *.
  assert (Hsep : rfind "/" (b ++ "."%char :: x) = -1).
  { apply rfind_absent. rewrite forallb_app. cbn. rewrite Hbase, Hext_sep.
    reflexivity. }
  rewrite Hsep, (rfind_last "." b x Hext_dot).
  apply existsb_exists in Hstem as (ch & Hin & Hch).
  apply negb_true_iff in Hch.
  apply list_elem_of_In, list_elem_of_lookup_1 in Hin as [k Hk].
  pose proof (lookup_lt_Some _ _ _ Hk) as Hlt.
  assert (Hstem : has_stem (b ++ "."%char :: x) (Z.of_nat 0)
                    (Z.to_nat (Z.of_nat (length b) - (-1 + 1))) = true).
  { apply (has_stem_found _ k ch); [|exact Hch|lia].
    rewrite lookup_app_l by exact Hlt. exact Hk. }
  change (-1 + 1) with (Z.of_nat 0) at 1. rewrite Hstem.
  replace (-1 <? Z.of_nat (length b)) with true by (symmetry; apply Z.ltb_lt; lia).
  cbn [andb]. rewrite Nat2Z.id, take_app_length, drop_app_length.
  subst b x. cbn [string_of_list_ascii].
  rewrite !string_of_list_ascii_of_string. reflexivity.
Qed.

End PosixPathFacts.

(** C9. [get_correct_filename] is a total function of its three arguments
    alone.  It returns "{scale}x_{baseName}.{ext}", where baseName is the
    first part of [splitext], the name without its extension, and ext is
    "jpg" for the format "JPEG" and "png" for any other format.  For a bare
    name [base.ext] the result does not depend on [ext].  In particular
    ("photo.png", 4, "JPEG") gives "4x_photo.jpg" and ("photo", 2, "PNG")
    gives "2x_photo.png". *)
Theorem filename_from_scale_base_and_format (base ext ext' : string)
        (scale : Z) (format_type : string) :
  lacks "/" base = true -> has_other_than "." base = true ->
  lacks "/" ext = true -> lacks "." ext = true ->
  lacks "/" ext' = true -> lacks "." ext' = true ->
  get_correct_filename (base +:+ "." +:+ ext) scale format_type
  = pretty scale +:+ "x_" +:+ base +:+ "." +:+ extension_of format_type
  /\ get_correct_filename (base +:+ "." +:+ ext) scale format_type
     = get_correct_filename (base +:+ "." +:+ ext') scale format_type
  /\ (forall name : string,
        get_correct_filename name scale format_type
        = pretty scale +:+ "x_" +:+ fst (PosixPath.splitext name) +:+ "."
          +:+ extension_of format_type
        /\ fst (PosixPath.splitext name) +:+ snd (PosixPath.splitext name)
           = name)
  /\ extension_of "JPEG" = "jpg"
  /\ (format_type <> "JPEG" -> extension_of format_type = "png")
  /\ get_correct_filename "photo.png" 4 "JPEG" = "4x_photo.jpg"
  /\ get_correct_filename "photo" 2 "PNG" = "2x_photo.png".
Proof.
  intros Hbase Hstem Hsep Hdot Hsep' Hdot'.
  assert (Hbare : forall x, lacks "/" x = true -> lacks "." x = true ->
            get_correct_filename (base +:+ "." +:+ x) scale format_type
            = pretty scale +:+ "x_" +:+ base +:+ "." +:+ extension_of format_type).
  { intros x Hx1 Hx2. unfold get_correct_filename.
    rewrite (PosixPathFacts.splitext_bare base x Hbase Hstem Hx1 Hx2).
    reflexivity. }
  split; [apply Hbare; assumption|].
  split; [rewrite !Hbare by assumption; reflexivity|].
  split.
  { intros name. split; [reflexivity | apply PosixPathFacts.splitext_join]. }
  split; [reflexivity|].
  split.
  { intros Hne. unfold extension_of.
    apply String.eqb_neq in Hne. rewrite Hne. reflexivity. }
  split; reflexivity.
Qed.

(** "photo.png" and "photo.webp" give the same name. *)
Lemma filename_from_scale_base_and_format_witness :
  get_correct_filename "photo.png" 4 "JPEG" = "4x_photo.jpg"
  /\ get_correct_filename "photo.png" 4 "JPEG"
     = get_correct_filename "photo.webp" 4 "JPEG".
Proof.
  pose proof (filename_from_scale_base_and_format "photo" "png" "webp" 4 "JPEG"
                eq_refl eq_refl eq_refl eq_refl eq_refl eq_refl)
    as (Hname & Hsame & _).
  split; [exact Hname | exact Hsame].
Defined.

(** * Further properties of the code *)

(** ** The store client on its own *)

Lemma get_records_unfiltered (w : World) :
  accounts_get_fault w = None ->
  get_records "" w =
  (inr (accounts w), with_sent (sent w ++ [GetAccounts ""]) w).
Proof.
  intros Hf. unfold get_records, requests_get. run.
  cbn. rewrite Hf. cbn. rewrite lookup_singleton_eq. reflexivity.
Qed.

Lemma get_records_unfiltered_fault (w : World) (flt : fault) :
  accounts_get_fault w = Some flt ->
  exists msg,
    get_records "" w =
    (inr [], with_screen (screen w ++ [msg])
               (with_sent (sent w ++ [GetAccounts ""]) w)).
Proof.
  intros Hf. unfold get_records, requests_get. run.
  cbn. rewrite Hf. destruct flt as [msg|code reason]; cbn.
  - eexists. reflexivity.
  - destruct (raise_for_status_cases
                (@refusal (gmap string (list AccountRecord)) code reason)
                (with_sent (sent w ++ [GetAccounts ""]) w)) as [H|[msg H]];
      rewrite H; cbn; eexists; reflexivity.
Qed.

(** X1.
    [get_records] never raises and never changes a table.  It sends one
    query.  When the store answers it returns the whole table for an empty
    formula and the selected records otherwise, and shows nothing; when the
    query fails it returns the empty list and shows one error banner. *)
Theorem get_records_answers_or_empty (w : World) (filter_formula : string) :
  let run := get_records filter_formula w in
  accounts (snd run) = accounts w
  /\ log_table (snd run) = log_table w
  /\ sent (snd run) = sent w ++ [GetAccounts filter_formula]
  /\ (accounts_get_fault w = None ->
      fst run = inr (if String.eqb filter_formula "" then accounts w
                     else List.filter (formula_holds filter_formula)
                                      (accounts w))
      /\ screen (snd run) = screen w)
  /\ (accounts_get_fault w <> None ->
      fst run = inr [] /\ exists msg, screen (snd run) = screen w ++ [msg]).
Proof.
  cbv zeta.
  destruct (String.eqb_spec filter_formula "") as [->|Hne];
    destruct (accounts_get_fault w) as [flt|] eqn:Hf.
  - destruct (get_records_unfiltered_fault w flt Hf) as [msg Hrun].
    rewrite Hrun. cbn. repeat split; try congruence; eauto.
  - rewrite (get_records_unfiltered w Hf). cbn.
    repeat split; try congruence.
  - apply String.eqb_neq in Hne.
    destruct (get_records_fault w filter_formula flt Hf Hne) as [msg Hrun].
    rewrite Hrun. cbn. repeat split; try congruence; eauto.
  - apply String.eqb_neq in Hne.
    rewrite (get_records_answer w filter_formula Hf Hne). cbn.
    repeat split; try congruence.
Qed.

(** X2.
    [create_record] never raises and sends one create request.  When the
    store accepts it the log table grows by exactly one record holding the
    given fields, which is returned; when the request fails the result is
    [None], the table is unchanged and one error banner is shown.  The
    accounts are never touched. *)
Theorem create_record_appends_or_drops (w : World)
        (fields : gmap string jval) :
  let run := create_record fields w in
  accounts (snd run) = accounts w
  /\ posted_logs (snd run) = posted_logs w ++ [fields]
  /\ (logs_post_fault w = None ->
      stored_logs (snd run) = stored_logs w ++ [fields]
      /\ (exists r, fst run = inr (Some r) /\ log_fields r = fields)
      /\ screen (snd run) = screen w)
  /\ (logs_post_fault w <> None ->
      fst run = inr None
      /\ log_table (snd run) = log_table w
      /\ exists msg, screen (snd run) = screen w ++ [msg]).
Proof.
  cbv zeta. destruct (logs_post_fault w) as [flt|] eqn:Hf.
  - destruct (create_record_fault w fields flt Hf) as [msg Hrun].
    rewrite Hrun. unfold posted_logs. cbn. rewrite flat_map_app. cbn.
    repeat split; try congruence; eauto.
  - rewrite (create_record_answer w fields Hf).
    unfold posted_logs, stored_logs. cbn. rewrite flat_map_app, map_app. cbn.
    repeat split; try congruence. eexists. split; reflexivity.
Qed.

Lemma patch_record_other (record_id : string) (fields : gmap string Z)
      (r : AccountRecord) :
  acc_id r <> record_id -> patch_record record_id fields r = r.
Proof.
  intros Hne. unfold patch_record.
  apply String.eqb_neq in Hne. rewrite Hne. reflexivity.
Qed.




(** ** The credit ledger over several calls *)

Lemma check_frame (w : World) (api_key : string) :
  let w' := snd (check_api_key_credits api_key w) in
  accounts w' = accounts w
  /\ log_table w' = log_table w
  /\ accounts_get_fault w' = accounts_get_fault w
  /\ accounts_patch_fault w' = accounts_patch_fault w
  /\ logs_post_fault w' = logs_post_fault w
  /\ posted_logs w' = posted_logs w
  /\ sent w' = sent w ++ [GetAccounts (key_formula api_key)].
Proof.
  cbv zeta. destruct (accounts_get_fault w) as [flt|] eqn:Hget.
  - destruct (check_fault w api_key flt Hget) as [msg Hrun]. rewrite Hrun.
    unfold posted_logs. cbn. rewrite flat_map_app. cbn. rewrite app_nil_r.
    auto 10.
  - destruct (stored_account w api_key) as [r|] eqn:Hr.
    + rewrite (check_found w api_key r Hget Hr).
      unfold posted_logs. cbn. rewrite flat_map_app. cbn. rewrite app_nil_r.
      auto 10.
    + rewrite (check_not_found w api_key Hget Hr).
      unfold posted_logs. cbn. rewrite flat_map_app. cbn. rewrite app_nil_r.
      auto 10.
Qed.

(** The answer of Check depends on the accounts table and on whether the
    query goes through, and on nothing else. *)
Lemma check_result_depends (w1 w2 : World) (api_key : string) :
  accounts w1 = accounts w2 ->
  accounts_get_fault w1 = accounts_get_fault w2 ->
  fst (check_api_key_credits api_key w1)
  = fst (check_api_key_credits api_key w2).
Proof.
  intros Hacc Hfault.
  assert (Hstored : stored_account w1 api_key = stored_account w2 api_key).
  { unfold stored_account. rewrite Hacc. reflexivity. }
  destruct (accounts_get_fault w2) as [flt|] eqn:Hget.
  - destruct (check_fault w1 api_key flt Hfault) as [m1 H1].
    destruct (check_fault w2 api_key flt Hget) as [m2 H2].
    rewrite H1, H2. reflexivity.
  - destruct (stored_account w2 api_key) as [r|] eqn:Hr.
    + rewrite (check_found w1 api_key r Hfault Hstored),
              (check_found w2 api_key r Hget Hr). reflexivity.
    + rewrite (check_not_found w1 api_key Hfault Hstored),
              (check_not_found w2 api_key Hget Hr). reflexivity.
Qed.

(** X4.
    Check is a pure query: however often it is called in a row, the accounts
    and the log table are what they were, no audit entry is sent, every
    request made is a query of the accounts, and the next call returns what
    the first one returned. *)
Theorem check_never_mutates (w : World) (api_key : string) (n : nat) :
  accounts (after_checks api_key n w) = accounts w
  /\ log_table (after_checks api_key n w) = log_table w
  /\ posted_logs (after_checks api_key n w) = posted_logs w
  /\ sent (after_checks api_key n w)
     = sent w ++ repeat (GetAccounts (key_formula api_key)) n
  /\ fst (check_api_key_credits api_key (after_checks api_key n w))
     = fst (check_api_key_credits api_key w).
Proof.
  assert (Hstep : accounts (after_checks api_key n w) = accounts w
                  /\ log_table (after_checks api_key n w) = log_table w
                  /\ posted_logs (after_checks api_key n w) = posted_logs w
                  /\ sent (after_checks api_key n w)
                     = sent w ++ repeat (GetAccounts (key_formula api_key)) n
                  /\ accounts_get_fault (after_checks api_key n w)
                     = accounts_get_fault w).
  { induction n as [|n (IHa & IHl & IHp & IHs & IHf)].
    - cbn. rewrite app_nil_r. auto.
    - change (after_checks api_key (S n) w)
        with (snd (check_api_key_credits api_key (after_checks api_key n w))).
      destruct (check_frame (after_checks api_key n w) api_key)
        as (Fa & Fl & Ff & _ & _ & Fp & Fs).
      rewrite Fa, Fl, Ff, Fp, Fs, IHa, IHl, IHp, IHs, IHf.
      repeat split. rewrite <- app_assoc. f_equal.
      change [GetAccounts (key_formula api_key)]
        with (repeat (GetAccounts (key_formula api_key)) 1).
      rewrite <- repeat_app. f_equal. lia. }
  destruct Hstep as (Ha & Hl & Hp & Hs & Hf).
  repeat split; try assumption.
  apply check_result_depends; assumption.
Qed.

(** X5.
    Check never raises, and its status tells exactly where the account
    stands: Ok when the store answers, a record is bound to the key and
    usedCredits is below allowedCredits; Exhausted when such a record has
    used all its credits; [None] when the query fails or no record is bound
    to the key. *)
Theorem check_status_characterised (w : World) (api_key : string) :
  (exists status msg,
      fst (check_api_key_credits api_key w) = inr (status, msg))
  /\ ((exists msg, fst (check_api_key_credits api_key w) = inr (Ok, msg))
      <-> accounts_get_fault w = None
          /\ exists r, stored_account w api_key = Some r
                       /\ used_credits r < allowed_credits r)
  /\ ((exists msg,
          fst (check_api_key_credits api_key w) = inr (Exhausted, msg))
      <-> accounts_get_fault w = None
          /\ exists r, stored_account w api_key = Some r
                       /\ allowed_credits r <= used_credits r)
  /\ ((exists msg,
          fst (check_api_key_credits api_key w) = inr (NotFound, msg))
      <-> accounts_get_fault w <> None \/ stored_account w api_key = None).
Proof.
  unfold Ok, Exhausted, NotFound.
  destruct (accounts_get_fault w) as [flt|] eqn:Hget.
  - destruct (check_fault w api_key flt Hget) as [m Hrun]. rewrite Hrun.
    cbn [fst]. split; [eauto|].
    split; [split; [intros [msg H]; discriminate H | intros [H _]; discriminate H]|].
    split; [split; [intros [msg H]; discriminate H | intros [H _]; discriminate H]|].
    split; [intros _; left; discriminate | eauto].
  - destruct (stored_account w api_key) as [r|] eqn:Hr.
    + rewrite (check_found w api_key r Hget Hr). cbn [fst].
      unfold credit_verdict.
      destruct (Z.leb_spec (allowed_credits r - used_credits r) 0) as [Hle|Hgt].
      * split; [eauto|]. split.
        { split; [intros [msg H]; discriminate H|].
          intros (_ & r0 & Heq & Hlt). injection Heq as <-. lia. }
        split.
        { split; [intros _; split; [reflexivity|]; exists r; split; [reflexivity|lia]
                 | eauto]. }
        split; [intros [msg H]; discriminate H|].
        intros [H|H]; [congruence | discriminate H].
      * split; [eauto|]. split.
        { split; [intros _; split; [reflexivity|]; exists r; split; [reflexivity|lia]
                 | eauto]. }
        split.
        { split; [intros [msg H]; discriminate H|].
          intros (_ & r0 & Heq & Hlt). injection Heq as <-. lia. }
        split; [intros [msg H]; discriminate H|].
        intros [H|H]; [congruence | discriminate H].
    + rewrite (check_not_found w api_key Hget Hr). cbn [fst].
      split; [eauto|].
      split; [split; [intros [msg H]; discriminate H
                     | intros (_ & r0 & H & _); discriminate H]|].
      split; [split; [intros [msg H]; discriminate H
                     | intros (_ & r0 & H & _); discriminate H]|].
      split; [intros _; right; reflexivity | eauto].
Qed.

Lemma credit_update_faults (w w' : World) (api_key : string) (increment : Z) :
  credit_update w api_key increment w' ->
  accounts_get_fault w' = accounts_get_fault w
  /\ accounts_patch_fault w' = accounts_patch_fault w
  /\ logs_post_fault w' = logs_post_fault w.
Proof. intros Hup. destruct Hup; cbn; auto. Qed.

Lemma patched_columns (record_id : string) (new_used : Z) (x : AccountRecord) :
  acc_id (patch_record record_id {[ "Used_credits" := new_used ]} x) = acc_id x
  /\ acc_key (patch_record record_id {[ "Used_credits" := new_used ]} x)
     = acc_key x
  /\ forall col,
       col <> "Used_credits" ->
       acc_fields (patch_record record_id {[ "Used_credits" := new_used ]} x)
         !! col = acc_fields x !! col.
Proof.
  unfold patch_record. destruct (String.eqb (acc_id x) record_id); cbn; auto.
  repeat split. intros col Hcol. apply lookup_union_r.
  apply lookup_singleton_ne. congruence.
Qed.

Lemma credit_update_keeps_allowed (w w' : World) (api_key : string)
      (increment : Z) (r r' : AccountRecord) :
  credit_update w api_key increment w' ->
  stored_account w api_key = Some r ->
  stored_account w' api_key = Some r' ->
  allowed_credits r' = allowed_credits r.
Proof.
  intros Hup H0 H0'.
  destruct Hup as [flt msg Hg|Hg Hn|r0 flt msg Hg Hr0 Hp|r0 Hg Hr0 Hp];
    unfold stored_account in *; cbn in H0'; try congruence.
  rewrite find_map_patch, H0 in H0'. cbn in H0'. injection H0' as <-.
  destruct (patched_columns (acc_id r0) (used_credits r0 + increment) r)
    as (_ & _ & Hcols).
  unfold allowed_credits. rewrite Hcols by discriminate. reflexivity.
Qed.

(** X6.
    Whatever happens to the request, [update_credits] leaves the shape of
    the accounts table alone: the same number of records in the same order,
    each with its id and its key, and every column other than Used_credits
    (Allowed_credits among them) with the value it had.  It sends nothing to
    the log store. *)
Theorem update_credits_touches_only_used (w : World) (api_key : string)
        (increment : Z) :
  let w' := snd (update_credits api_key increment w) in
  length (accounts w') = length (accounts w)
  /\ (forall (i : nat) (x : AccountRecord),
        accounts w !! i = Some x ->
        exists x',
          accounts w' !! i = Some x'
          /\ acc_id x' = acc_id x /\ acc_key x' = acc_key x
          /\ allowed_credits x' = allowed_credits x
          /\ forall col, col <> "Used_credits" ->
                         acc_fields x' !! col = acc_fields x !! col)
  /\ log_table w' = log_table w
  /\ posted_logs w' = posted_logs w.
Proof.
  cbv zeta.
  destruct (update_credits_run w api_key increment) as (w' & Hrun & Hup).
  rewrite Hrun. cbn [snd].
  destruct (credit_update_effect _ _ _ _ Hup) as (Hlog & Hposted & _).
  assert (Hshape :
            accounts w' = accounts w
            \/ exists id v,
                accounts w' = map (patch_record id {[ "Used_credits" := v ]})
                                  (accounts w)).
  { destruct Hup; cbn; eauto. }
  split; [|split; [|auto]].
  - destruct Hshape as [->|(id & v & ->)]; [reflexivity | apply length_map].
  - intros i x Hx. destruct Hshape as [->|(id & v & ->)].
    + exists x. auto 10.
    + exists (patch_record id {[ "Used_credits" := v ]} x).
      rewrite list_lookup_fmap, Hx.
      destruct (patched_columns id v x) as (Hid & Hkey & Hcols).
      split; [reflexivity|]. split; [exact Hid|]. split; [exact Hkey|].
      split; [|exact Hcols].
      unfold allowed_credits. rewrite Hcols by discriminate. reflexivity.
Qed.

(** X7.
    Two increments in a row add up: when the store takes both writes,
    usedCredits of the account ends at its first value plus both deltas. *)
Theorem update_credits_compose (w : World) (api_key : string)
        (r : AccountRecord) (a b : Z) :
  accounts_get_fault w = None ->
  accounts_patch_fault w = None ->
  stored_account w api_key = Some r ->
  let w1 := snd (update_credits api_key a w) in
  let w2 := snd (update_credits api_key b w1) in
  exists r2,
    stored_account w2 api_key = Some r2
    /\ used_credits r2 = used_credits r + a + b
    /\ allowed_credits r2 = allowed_credits r.
Proof.
  intros Hget Hpatch Hr. cbv zeta.
  destruct (update_credits_run w api_key a) as (w1 & Hrun1 & Hup1).
  rewrite Hrun1. cbn [snd].
  destruct (credit_update_faults _ _ _ _ Hup1) as (Hget1 & Hpatch1 & _).
  destruct (credit_update_effect _ _ _ _ Hup1) as (_ & _ & Hfound1 & _).
  destruct (Hfound1 r Hget Hr) as (_ & Hwritten1 & _).
  destruct (Hwritten1 Hpatch) as (r1 & Hr1 & Hused1).
  destruct (update_credits_run w1 api_key b) as (w2 & Hrun2 & Hup2).
  rewrite Hrun2. cbn [snd].
  destruct (credit_update_effect _ _ _ _ Hup2) as (_ & _ & Hfound2 & _).
  rewrite Hget in Hget1. rewrite Hpatch in Hpatch1.
  destruct (Hfound2 r1 Hget1 Hr1) as (_ & Hwritten2 & _).
  destruct (Hwritten2 Hpatch1) as (r2 & Hr2 & Hused2).
  exists r2. split; [exact Hr2|]. split; [lia|].
  rewrite (credit_update_keeps_allowed _ _ _ _ _ _ Hup2 Hr1 Hr2),
          (credit_update_keeps_allowed _ _ _ _ _ _ Hup1 Hr Hr1).
  reflexivity.
Qed.

Lemma update_credits_compose_witness :
  exists r2,
    stored_account
      (snd (update_credits "K1" 2
              (snd (update_credits "K1" 1 (world_healthy service_down)))))
      "K1" = Some r2
    /\ used_credits r2 = used_credits account_K1 + 1 + 2
    /\ allowed_credits r2 = allowed_credits account_K1.
Proof.
  exact (update_credits_compose (world_healthy service_down) "K1" account_K1
           1 2 eq_refl eq_refl eq_refl).
Defined.

(** ** The enhancement call as a whole *)



Lemma log_api_call_entry (w : World) (api_key status : string)
      (original_size output_size : jval) (scale : Z) (format_type : string)
      (processing_time : Z) (error_message : jval) :
  exists e w',
    log_api_call api_key status original_size output_size scale format_type
                 processing_time error_message w = (inr tt, w')
    /\ entry_records e (clock w) api_key status original_size output_size
         scale format_type processing_time error_message
    /\ logged w e w'.
Proof.
  unfold log_api_call, time_time, gets, bind.
  match goal with
  | |- context [create_record ?entry w] => set (e := entry)
  end.
  exists e.
  assert (He : entry_records e (clock w) api_key status original_size
                 output_size scale format_type processing_time error_message).
  { unfold entry_records. repeat split; reflexivity. }
  destruct (logs_post_fault w) as [flt|] eqn:Hf.
  - destruct (create_record_fault w e flt Hf) as [msg Hrun].
    rewrite Hrun. eexists. split; [reflexivity|]. split; [exact He|].
    eapply log_dropped; eassumption.
  - rewrite (create_record_answer w e Hf).
    eexists. split; [reflexivity|]. split; [exact He|].
    apply log_stored; assumption.
Qed.

(** Run the [log_api_call] at the head of the goal, keeping its entry. *)
Ltac step_entry e w' Hrun He Hlog :=
  match goal with
  | |- context [log_api_call ?k ?st ?os ?us ?sc ?ft ?pt ?em ?w] =>
      destruct (log_api_call_entry w k st os us sc ft pt em)
        as (e & w' & Hrun & He & Hlog);
      rewrite Hrun
  end.

(** Every run of [enhance_image] sends one entry to the log store; the
    entry records the arguments of the call and what the run returns. *)
Lemma enhance_image_entry (w : World) (image_data : list byte)
      (api_key : string) (scale : Z) (format_type : string) :
  let w1 := after_call (request_payload image_data scale format_type) w in
  exists res w',
    enhance_image image_data api_key scale format_type w = (res, w')
    /\ exists e status original_size output_size error_message w2,
         entry_records e (clock w1) api_key status original_size output_size
           scale format_type (clock w1 - clock w) error_message
         /\ logged w1 e w2
         /\ ((In status ["api_error"; "http_error"; "exception"]
              /\ original_size = JNull /\ output_size = JNull
              /\ res = failure error_message /\ w' = w2)
             \/ (exists output_data result,
                    status = "success" /\ error_message = JNull
                    /\ original_size = dict_get result "original_size"
                    /\ output_size = dict_get result "output_size"
                    /\ credit_update w2 api_key 1 w'
                    /\ res = inr (true, Some output_data, result))).
Proof.
  intros w1.
  unfold enhance_image, try_except, time_time, gets.
  unfold bind at 1. unfold bind at 1.
  fold (request_payload image_data scale format_type).
  rewrite requests_post_api_run. fold w1.
  destruct (service w (request_payload image_data scale format_type))
    as [e0|r].
  { unfold bind. step_entry e w2 Hrun He Hlog.
    eexists _, _. split; [reflexivity|].
    exists e, "exception", JNull, JNull, (JStr (str_exn e0)), w2.
    split; [exact He|]. split; [exact Hlog|]. left. cbn. auto 10. }
  unfold bind. destruct (status_code r =? 200) eqn:Hcode.
  2:{ step_entry e w2 Hrun He Hlog.
      eexists _, _. split; [reflexivity|].
      eexists e, "http_error", JNull, JNull, _, w2.
      split; [exact He|]. split; [exact Hlog|]. left. cbn. auto 10. }
  destruct (resp_json r) as [e0|result]; cbn [lift raise ret].
  { step_entry e w2 Hrun He Hlog.
    eexists _, _. split; [reflexivity|].
    exists e, "exception", JNull, JNull, (JStr (str_exn e0)), w2.
    split; [exact He|]. split; [exact Hlog|]. left. cbn. auto 10. }
  destruct (truthy (dict_get result "success")).
  2:{ step_entry e w2 Hrun He Hlog.
      eexists _, _. split; [reflexivity|].
      eexists e, "api_error", JNull, JNull, _, w2.
      split; [exact He|]. split; [exact Hlog|]. left. cbn. auto 10. }
  destruct (decode_output_image result) as [e0|output_data];
    cbn [lift raise ret].
  { step_entry e w2 Hrun He Hlog.
    eexists _, _. split; [reflexivity|].
    exists e, "exception", JNull, JNull, (JStr (str_exn e0)), w2.
    split; [exact He|]. split; [exact Hlog|]. left. cbn. auto 10. }
  step_entry e w2 Hrun He Hlog.
  destruct (update_credits_run w2 api_key 1) as (w' & Hup & Hcredit).
  rewrite Hup.
  eexists _, _. split; [reflexivity|].
  exists e, "success", (dict_get result "original_size"),
    (dict_get result "output_size"), JNull, w2.
  split; [exact He|]. split; [exact Hlog|]. right.
  exists output_data, result. auto 10.
Qed.

Lemma service_requests_after_call (p : Payload) (w : World) :
  service_requests (after_call p w) = service_requests w ++ [p].
Proof. unfold service_requests. cbn. rewrite flat_map_app. reflexivity. Qed.

Lemma service_requests_logged (w w' : World) (e : gmap string jval) :
  logged w e w' -> service_requests w' = service_requests w.
Proof.
  intros [Hf|flt msg Hf]; unfold service_requests; cbn;
    rewrite flat_map_app; cbn; apply app_nil_r.
Qed.

Lemma service_requests_credit_update (w w' : World) (api_key : string)
      (increment : Z) :
  credit_update w api_key increment w' ->
  service_requests w' = service_requests w.
Proof.
  intros Hup. destruct Hup; unfold service_requests; cbn;
    rewrite flat_map_app; cbn; apply app_nil_r.
Qed.

Lemma service_requests_enhance_image (w : World) (image_data : list byte)
      (api_key : string) (scale : Z) (format_type : string) :
  service_requests (snd (enhance_image image_data api_key scale format_type w))
  = service_requests w ++ [request_payload image_data scale format_type].
Proof.
  destruct (enhance_image_cases w image_data api_key scale format_type)
    as [(msg & tag & e & w' & Hrun & _ & Hlog)
       |(result & output_data & e & w2 & w' & Hrun & _ & Hlog & Hup)];
    rewrite Hrun; cbn [snd].
  - rewrite (service_requests_logged _ _ _ Hlog).
    apply service_requests_after_call.
  - rewrite (service_requests_credit_update _ _ _ _ Hup),
            (service_requests_logged _ _ _ Hlog).
    apply service_requests_after_call.
Qed.

(** X10.
    Every run of [enhance_image] sends exactly one request to the
    enhancement service, with no second attempt.  Its image field is base64
    text that decodes to the bytes given, and scale and format are the ones
    given. *)
Theorem one_request_carrying_the_image (w : World) (image_data : list byte)
        (api_key : string) (scale : Z) (format_type : string) :
  exists p,
    service_requests
      (snd (enhance_image image_data api_key scale format_type w))
    = service_requests w ++ [p]
    /\ Base64.b64decode (p_image p) = inr image_data
    /\ p_scale p = scale
    /\ p_format p = format_type.
Proof.
  exists (request_payload image_data scale format_type).
  split; [apply service_requests_enhance_image|].
  split; [apply Base64Facts.b64decode_b64encode | split; reflexivity].
Qed.

(** X11.
    Every run of [enhance_image] sends exactly one audit entry, with nine
    fields.  The entry records the key, the scale and the format of the
    call, the time of the clock after the service call and, as processing
    time, the time the service call took.  For a run that returns ok = false
    its sizes are null, its status is one of the three failure tags and its
    error message is the one returned; for a run that returns ok = true its
    status is "success", its error message is null and its sizes are those
    of the response, as text. *)
Theorem audit_entry_records_the_call (w : World) (image_data : list byte)
        (api_key : string) (scale : Z) (format_type : string) :
  let run := enhance_image image_data api_key scale format_type w in
  exists e,
    posted_logs (snd run) = posted_logs w ++ [e]
    /\ size e = 9%nat
    /\ e !! "api_key" = Some (JStr api_key)
    /\ e !! "scale" = Some (JNum scale)
    /\ e !! "format" = Some (JStr format_type)
    /\ e !! "timestamp" = Some (JNum (clock w + latency w))
    /\ e !! "processing_time" = Some (JNum (latency w))
    /\ (forall out details,
          fst run = inr (false, out, details) ->
          e !! "original_size" = Some JNull
          /\ e !! "output_size" = Some JNull
          /\ (exists status,
                e !! "status" = Some (JStr status)
                /\ In status ["api_error"; "http_error"; "exception"])
          /\ exists msg, e !! "error_message" = Some msg
                         /\ details = {[ "error" := msg ]})
    /\ (forall out result,
          fst run = inr (true, out, result) ->
          e !! "status" = Some (JStr "success")
          /\ e !! "error_message" = Some JNull
          /\ e !! "original_size"
             = Some (str_if (dict_get result "original_size"))
          /\ e !! "output_size"
             = Some (str_if (dict_get result "output_size"))).
Proof.
  cbv zeta.
  destruct (enhance_image_entry w image_data api_key scale format_type)
    as (res & w' & Hrun & e & status & os & us & em & w2 & He & Hlog & Hcase).
  rewrite Hrun. cbn [fst snd]. exists e.
  destruct He as (Hts & Hkey & Hst & Hos & Hus & Hsc & Hft & Hpt & Hem & Hsize).
  destruct (logged_after_call _ _ _ _ Hlog) as (Hposted & _).
  replace (clock (after_call (request_payload image_data scale format_type) w)
           - clock w) with (latency w) in Hpt by (cbn; lia).
  cbn [clock after_call with_clock] in Hts.
  assert (Hp : posted_logs w' = posted_logs w ++ [e]).
  { destruct Hcase as [(_ & _ & _ & _ & ->)|(o & r & _ & _ & _ & _ & Hup & _)];
      [exact Hposted|].
    destruct (credit_update_effect _ _ _ _ Hup) as (_ & -> & _).
    exact Hposted. }
  repeat (split; [assumption|]).
  destruct Hcase as [(Hin & -> & -> & -> & ->)
                    |(o & r & -> & -> & -> & -> & Hup & ->)].
  - split.
    + intros out details Heq. injection Heq as <- <-.
      repeat split; eauto.
    + intros out result Heq. discriminate Heq.
  - split.
    + intros out details Heq. discriminate Heq.
    + intros out result Heq. injection Heq as <- <-. auto.
Qed.

(** X12.
    A successful enhancement followed by Check, with an accounts store that
    answers: Check sees one more credit used and the same allowance.  An
    account that had exactly one credit left is reported Exhausted. *)
Theorem enhancement_then_check (w : World) (image_data : list byte)
        (api_key : string) (scale : Z) (format_type : string)
        (account : AccountRecord) :
  usable_reply (service w (request_payload image_data scale format_type)) ->
  accounts_get_fault w = None ->
  accounts_patch_fault w = None ->
  stored_account w api_key = Some account ->
  let w' := snd (enhance_image image_data api_key scale format_type w) in
  exists account',
    stored_account w' api_key = Some account'
    /\ used_credits account' = used_credits account + 1
    /\ allowed_credits account' = allowed_credits account
    /\ fst (check_api_key_credits api_key w') = inr (credit_verdict account')
    /\ (allowed_credits account - used_credits account = 1 ->
        exists msg,
          fst (check_api_key_credits api_key w') = inr (Exhausted, msg)).
Proof.
  intros (r & result & bytes & Hreply & Hcode & Hjson & Hsuccess & Hdecode)
         Hget Hpatch Hstored.
  cbv zeta.
  destruct (enhance_success w image_data api_key scale format_type r result
              bytes Hreply Hcode Hjson Hsuccess Hdecode)
    as (e & w2 & w' & Hrun & _ & Hlog & Hup).
  rewrite Hrun. cbn [snd].
  destruct (logged_after_call _ _ _ _ Hlog) as (_ & _ & _ & Hacc & _).
  destruct (logged_effect _ _ _ Hlog) as (_ & Lget & Lpatch & _).
  destruct (after_call_effect (request_payload image_data scale format_type) w)
    as (_ & _ & Aget & Apatch & _).
  rewrite Aget, Hget in Lget. rewrite Apatch, Hpatch in Lpatch.
  assert (Hstored2 : stored_account w2 api_key = Some account).
  { unfold stored_account in *. rewrite Hacc. exact Hstored. }
  destruct (credit_update_effect _ _ _ _ Hup) as (_ & _ & Hfound & _).
  destruct (Hfound account Lget Hstored2) as (_ & Hwritten & _).
  destruct (Hwritten Lpatch) as (account' & Hstored' & Hused).
  destruct (credit_update_faults _ _ _ _ Hup) as (Hget' & _).
  rewrite Lget in Hget'.
  pose proof (credit_update_keeps_allowed _ _ _ _ _ _ Hup Hstored2 Hstored')
    as Hallowed.
  exists account'. split; [exact Hstored'|]. split; [exact Hused|].
  split; [exact Hallowed|].
  rewrite (check_found w' api_key account' Hget' Hstored'). cbn [fst].
  split; [reflexivity|].
  intros Hlast. unfold credit_verdict.
  destruct (Z.leb_spec (allowed_credits account' - used_credits account') 0);
    [eexists; reflexivity | lia].
Qed.

(** ** File names without an extension, and the name given back *)

Module FilenameFacts.
Import PosixPath PosixPathFacts.

Lemma rfind_lower (c : ascii) (p : list ascii) : -1 <= rfind c p.
Proof.
  induction p as [|x p IH]; cbn [rfind]; [lia|].
  destruct (Z.leb_spec 0 (rfind c p)); [lia|].
  destruct (Ascii.eqb x c); lia.
Qed.

(** A path without a dot has no extension. *)
Lemma splitext_dotless (path : string) :
  lacks "." path = true -> splitext path = (path, "").
Proof.
  unfold lacks. intros Hdot. unfold splitext.
  rewrite (rfind_absent "." _ Hdot).
  pose proof (rfind_lower "/" (list_ascii_of_string path)) as Hsep.
  replace (rfind "/" (list_ascii_of_string path) <? -1) with false
    by (symmetry; apply Z.ltb_ge; lia).
  reflexivity.
Qed.

(** A bare name that starts with its only dot is not split. *)
Lemma splitext_hidden_name (tail : string) :
  lacks "." tail = true -> lacks "/" tail = true ->
  splitext ("." +:+ tail) = ("." +:+ tail, "").
Proof.
  unfold lacks. intros Hdot Hsep. unfold splitext.
  change (list_ascii_of_string ("." +:+ tail))
    with ([] ++ "."%char :: list_ascii_of_string tail).
  rewrite (rfind_last "." [] _ Hdot).
  assert (H : rfind "/" ([] ++ "."%char :: list_ascii_of_string tail) = -1).
  { apply rfind_absent. cbn. exact Hsep. }
  rewrite H. reflexivity.
Qed.

Lemma append_assoc (a b c : string) : (a +:+ b) +:+ c = a +:+ (b +:+ c).
Proof.
  induction a as [|x a IH]; [reflexivity|].
  change (String x ((a +:+ b) +:+ c) = String x (a +:+ (b +:+ c))).
  f_equal. exact IH.
Qed.

Lemma lacks_app (c : ascii) (a b : string) :
  lacks c (a +:+ b) = lacks c a && lacks c b.
Proof. unfold lacks. rewrite chars_app. apply forallb_app. Qed.

Lemma digit_is_no_slash (x : N) :
  negb (Ascii.eqb (pretty_N_char x) "/") = true.
Proof. unfold pretty_N_char. repeat case_match; reflexivity. Qed.

Lemma pretty_N_go_lacks_slash (x : N) :
  forall s, lacks "/" s = true -> lacks "/" (pretty_N_go x s) = true.
Proof.
  induction (N.lt_wf_0 x) as [x _ IH]. intros s Hs.
  destruct (N.eq_dec x 0%N) as [->|Hx].
  - rewrite pretty_N_go_0. exact Hs.
  - rewrite pretty_N_go_step by lia. apply IH.
    + apply N.div_lt; lia.
    + unfold lacks in *. cbn. rewrite digit_is_no_slash. exact Hs.
Qed.

Lemma pretty_N_lacks_slash (x : N) : lacks "/" (pretty x) = true.
Proof.
  unfold pretty, pretty_N. destruct (decide (x = 0%N)); [reflexivity|].
  apply pretty_N_go_lacks_slash. reflexivity.
Qed.

(** The decimal text of an integer holds no slash. *)
Lemma pretty_Z_lacks_slash (z : Z) : lacks "/" (pretty z) = true.
Proof.
  unfold pretty, pretty_Z. destruct z as [|p|p].
  - reflexivity.
  - exact (pretty_N_lacks_slash (N.pos p)).
  - rewrite lacks_app. apply andb_true_intro. split; [reflexivity|].
    exact (pretty_N_lacks_slash (N.pos p)).
Qed.

Lemma lacks_take (c : ascii) (p : list ascii) (n : nat) :
  forallb (fun x => negb (Ascii.eqb x c)) p = true ->
  forallb (fun x => negb (Ascii.eqb x c)) (take n p) = true.
Proof.
  revert n. induction p as [|x p IH]; intros [|n] H; cbn; try reflexivity.
  cbn in H. apply andb_prop in H as [Hx Hp]. rewrite Hx. cbn. apply IH, Hp.
Qed.

(** The first part of [splitext] holds no slash when the path holds none. *)
Lemma base_name_lacks_slash (path : string) :
  lacks "/" path = true -> lacks "/" (fst (splitext path)) = true.
Proof.
  intros H. unfold splitext. destruct (_ && _); cbn [fst]; [|exact H].
  unfold lacks in *. rewrite list_ascii_of_string_of_list_ascii.
  apply lacks_take, H.
Qed.

Lemma extension_of_plain (format_type : string) :
  lacks "/" (extension_of format_type) = true
  /\ lacks "." (extension_of format_type) = true.
Proof.
  unfold extension_of. destruct (String.eqb format_type "JPEG");
    split; reflexivity.
Qed.

End FilenameFacts.

(** X13.
    A name without an extension is kept whole: when [original_filename]
    holds no dot, or is a bare name whose only dot is its first character,
    [get_correct_filename] returns "{scale}x_" followed by the whole name,
    a dot and the extension of the format. *)
Theorem filename_keeps_names_without_extension (name tail : string)
        (scale : Z) (format_type : string) :
  lacks "." name = true ->
  lacks "." tail = true -> lacks "/" tail = true ->
  get_correct_filename name scale format_type
  = pretty scale +:+ "x_" +:+ name +:+ "." +:+ extension_of format_type
  /\ get_correct_filename ("." +:+ tail) scale format_type
     = pretty scale +:+ "x_" +:+ ("." +:+ tail) +:+ "."
       +:+ extension_of format_type.
Proof.
  intros Hname Htail_dot Htail_sep. unfold get_correct_filename.
  rewrite (FilenameFacts.splitext_dotless name Hname),
          (FilenameFacts.splitext_hidden_name tail Htail_dot Htail_sep).
  split; reflexivity.
Qed.

Lemma filename_keeps_names_without_extension_witness :
  get_correct_filename "scan" 8 "PNG" = "8x_scan.png"
  /\ get_correct_filename ".bashrc" 8 "PNG" = "8x_.bashrc.png".
Proof.
  exact (filename_keeps_names_without_extension "scan" "bashrc" 8 "PNG"
           eq_refl eq_refl eq_refl).
Defined.

(** X14.
    The name given back has the extension of the format and no other: for a
    bare uploaded name (no slash), [os.path.splitext] splits the result of
    [get_correct_filename] into "{scale}x_{baseName}" and ".jpg" or ".png". *)
Theorem filename_splits_back (name : string) (scale : Z)
        (format_type : string) :
  lacks "/" name = true ->
  PosixPath.splitext (get_correct_filename name scale format_type)
  = (pretty scale +:+ "x_" +:+ fst (PosixPath.splitext name),
     "." +:+ extension_of format_type).
Proof.
  intros Hname. unfold get_correct_filename. fold (extension_of format_type).
  destruct (FilenameFacts.extension_of_plain format_type) as (Hsep & Hdot).
  set (base := fst (PosixPath.splitext name)).
  replace (pretty scale +:+ "x_" +:+ base +:+ "." +:+ extension_of format_type)
    with ((pretty scale +:+ "x_" +:+ base) +:+ "."
          +:+ extension_of format_type).
  2:{ rewrite !FilenameFacts.append_assoc. reflexivity. }
  apply PosixPathFacts.splitext_bare; try assumption.
  - rewrite !FilenameFacts.lacks_app.
    rewrite FilenameFacts.pretty_Z_lacks_slash.
    subst base. rewrite (FilenameFacts.base_name_lacks_slash name Hname).
    reflexivity.
  - unfold has_other_than. rewrite !PosixPathFacts.chars_app, !existsb_app.
    cbn. rewrite orb_true_r. reflexivity.
Qed.

Lemma filename_splits_back_witness :
  PosixPath.splitext (get_correct_filename "archive.tar.gz" 2 "PNG")
  = ("2x_archive.tar", ".png").
Proof. exact (filename_splits_back "archive.tar.gz" 2 "PNG" eq_refl). Defined.


(** The account of "K3" spends its last credit. *)
Lemma enhancement_then_check_witness :
  exists account',
    stored_account (snd (enhance_image Man "K3" 2 "PNG" world_last_credit))
                   "K3" = Some account'
    /\ used_credits account' = 5
    /\ exists msg,
         fst (check_api_key_credits "K3"
                (snd (enhance_image Man "K3" 2 "PNG" world_last_credit)))
         = inr (Exhausted, msg).
Proof.
  assert (Husable : usable_reply
                      (service world_last_credit (request_payload Man 2 "PNG"))).
  { eexists _, _, Man. repeat split; reflexivity. }
  destruct (enhancement_then_check world_last_credit Man "K3" 2 "PNG"
              account_last_credit Husable eq_refl eq_refl eq_refl)
    as (account' & Hstored & Hused & _ & _ & Hlast).
  exists account'. split; [exact Hstored|]. split; [exact Hused|].
  exact (Hlast eq_refl).
Defined.

(** ** The Streamlit page: one run of [main] *)

(** Unfold the operations of the page monad. *)
Ltac s_run :=
  unfold s_bind, show, input, state, set_state, s_ret, s_stop;
  cbn [world session page fst snd].

Lemma call_run {A} (m : M A) (i : Inputs) (app : App) (a : A) :
  fst (m (world app)) = inr a ->
  call m i app =
  (inr a, {| world := snd (m (world app)); session := session app;
             page := page app |}).
Proof.
  unfold call. destruct (m (world app)) as [[e|x] w']; cbn; congruence.
Qed.

Lemma check_returns (w : World) (api_key : string) :
  exists status msg,
    fst (check_api_key_credits api_key w) = inr (status, msg).
Proof.
  destruct (accounts_get_fault w) as [flt|] eqn:Hget.
  - destruct (check_fault w api_key flt Hget) as [m ->]. cbn. eauto.
  - destruct (stored_account w api_key) as [r|] eqn:Hr.
    + rewrite (check_found w api_key r Hget Hr). cbn.
      destruct (credit_verdict r). eauto.
    + rewrite (check_not_found w api_key Hget Hr). cbn. eauto.
Qed.

Lemma enhance_returns (w : World) (image_data : list byte)
      (api_key : string) (scale : Z) (format_type : string) :
  exists res, fst (enhance_image image_data api_key scale format_type w)
              = inr res.
Proof.
  destruct (enhance_image_cases w image_data api_key scale format_type)
    as [(msg & tag & e & w' & -> & _)|(result & out & e & w2 & w' & -> & _)];
    cbn; eauto.
Qed.

Lemma credit_banner_run (api_key : string) (i : Inputs) (app : App)
      (status : option bool) (msg : string) :
  fst (check_api_key_credits api_key (world app)) = inr (status, msg) ->
  let w' := snd (check_api_key_credits api_key (world app)) in
  credit_banner api_key i app =
  if default false (image_processed (session app)) || default false status
  then (inr tt, {| world := w'; session := session app;
                   page := page app
                           ++ [banner status msg] |})
  else (inl Returned,
        {| world := with_screen (screen w' ++ ["❌ " +:+ msg]) w';
           session := session app; page := page app |}).
Proof.
  intros Hcheck. cbv zeta. unfold credit_banner. s_run.
  destruct (default false (image_processed (session app))); cbn [negb orb];
    s_run; rewrite (call_run _ i _ _ Hcheck); cbn [fst snd].
  - destruct status as [[|]|]; reflexivity.
  - destruct status as [[|]|]; reflexivity.
Qed.

Lemma PIL_Image_open_run (data : list byte) (i : Inputs) (app : App)
      (size : Z * Z) :
  Image_open i data = inr size ->
  PIL_Image_open data i app = (inr size, app).
Proof. intros H. unfold PIL_Image_open. s_run. rewrite H. reflexivity. Qed.

Lemma attribute_run {A} (field : Session -> option A) (i : Inputs)
      (app : App) (a : A) :
  field (session app) = Some a -> attribute field i app = (inr a, app).
Proof. intros H. unfold attribute. s_run. rewrite H. reflexivity. Qed.

Lemma remember_upload_run (uploaded_file : UploadedFile) (i : Inputs)
      (app : App) :
  remember_upload uploaded_file i app =
  (inr tt, {| world := world app;
              session := remembered uploaded_file (session app);
              page := page app |}).
Proof.
  unfold remember_upload, remembered. s_run.
  destruct (image_processed (session app)) as [b|]; s_run;
    destruct (last_uploaded_file _) as [name|]; s_run;
    try destruct (negb (String.eqb name (uf_name uploaded_file)));
    reflexivity.
Qed.



Lemma remembered_has_flag (uploaded_file : UploadedFile) (s : Session) :
  exists b, image_processed (remembered uploaded_file s) = Some b
            /\ (b = true -> image_processed s = Some true).
Proof.
  unfold remembered.
  destruct (image_processed s) as [b|] eqn:Hb; cbn.
  - destruct (last_uploaded_file s) as [name|]; cbn.
    + destruct (negb (String.eqb name (uf_name uploaded_file))); cbn.
      * exists false. split; [reflexivity | discriminate].
      * rewrite Hb. exists b. split; [reflexivity | congruence].
    + rewrite Hb. exists b. split; [reflexivity | congruence].
  - exists false. split; [|discriminate].
    destruct (last_uploaded_file s) as [name|]; cbn; [|reflexivity].
    destruct (negb (String.eqb name (uf_name uploaded_file))); reflexivity.
Qed.

Lemma time_time_run (i : Inputs) (app : App) :
  call time_time i app =
  (inr (clock (world app)),
   {| world := world app; session := session app; page := page app |}).
Proof. apply (call_run time_time i app). reflexivity. Qed.

Lemma st_error_run (msg : string) (i : Inputs) (app : App) :
  call (st_error msg) i app =
  (inr tt, {| world := with_screen (screen (world app) ++ [msg]) (world app);
              session := session app; page := page app |}).
Proof. apply (call_run (st_error msg) i app). reflexivity. Qed.

Lemma call_at {A} (m : M A) (i : Inputs) (w : World) (s : Session)
      (p : list Element) (a : A) :
  fst (m w) = inr a ->
  call m i {| world := w; session := s; page := p |} =
  (inr a, {| world := snd (m w); session := s; page := p |}).
Proof.
  intros H. apply (call_run m i {| world := w; session := s; page := p |} a H).
Qed.

Lemma attribute_at {A} (field : Session -> option A) (i : Inputs)
      (w : World) (s : Session) (p : list Element) (a : A) :
  field s = Some a ->
  attribute field i {| world := w; session := s; page := p |} =
  (inr a, {| world := w; session := s; page := p |}).
Proof.
  intros H.
  apply (attribute_run field i {| world := w; session := s; page := p |} a H).
Qed.

Lemma process_upload_idle (uploaded_file : UploadedFile) (api_key : string)
      (scale : Z) (format_type : string) (i : Inputs) (app : App) :
  button i = false ->
  process_upload uploaded_file api_key scale format_type i app =
  (inr tt, {| world := world app; session := session app;
              page := page app ++ [Button "✨ Améliorer l'image"] |}).
Proof. intros H. unfold process_upload. s_run. rewrite H. reflexivity. Qed.

Lemma process_upload_clicked (uploaded_file : UploadedFile)
      (api_key : string) (scale : Z) (format_type : string) (i : Inputs)
      (app : App) (ok : bool) (out : option (list byte))
      (details : gmap string jval) :
  button i = true ->
  fst (enhance_image (uf_value uploaded_file) api_key scale format_type
         (world app)) = inr (ok, out, details) ->
  let w' := snd (enhance_image (uf_value uploaded_file) api_key scale
                   format_type (world app)) in
  process_upload uploaded_file api_key scale format_type i app =
  if ok then
    (inl Rerun,
     {| world := w';
        session :=
          {| image_processed := Some true; output_data := Some out;
             result := Some (Some details);
             processing_time := Some (Some (clock w' - clock (world app)));
             last_uploaded_file := last_uploaded_file (session app) |};
        page := page app ++ [Button "✨ Améliorer l'image"] |})
  else
    (inr tt,
     {| world :=
          with_screen
            (screen w' ++ ["❌ Erreur lors du traitement: "
                           +:+ get_text details "error" "Erreur inconnue"])
            w';
        session := session app;
        page := page app ++ [Button "✨ Améliorer l'image"] |}).
Proof.
  intros Hclick Hrun. cbv zeta. unfold process_upload.
  unfold s_bind at 1. unfold show at 1. cbn [fst snd].
  unfold s_bind at 1. unfold input at 1. rewrite Hclick.
  unfold s_bind at 1. rewrite time_time_run. cbn [world session page].
  unfold s_bind at 1.
  rewrite (call_at _ i _ _ _ _ Hrun). cbn [world session page fst snd].
  unfold s_bind at 1. rewrite time_time_run. cbn [world session page].
  destruct ok; [s_run; reflexivity|].
  rewrite st_error_run. reflexivity.
Qed.


Lemma summary_idle (scale : Z) (i : Inputs) (app : App) :
  default false (image_processed (session app)) = false ->
  summary scale i app = (inr tt, app).
Proof. intros H. unfold summary. s_run. rewrite H. reflexivity. Qed.


Lemma st_selectbox_chosen {A} (label : string) (options : list A)
      (index : nat) (choice : Inputs -> nat) (i : Inputs) (app : App)
      (d : A) :
  options !! index = Some d ->
  st_selectbox label options index choice i app =
  (inr (chosen options index d (choice i)),
   {| world := world app; session := session app;
      page := page app ++ [Selectbox label] |}).
Proof.
  intros Hd. unfold st_selectbox, chosen. s_run. rewrite Hd.
  destruct (options !! choice i) as [a|]; reflexivity.
Qed.

Lemma chosen_in {A} (options : list A) (index : nat) (d : A) (picked : nat) :
  options !! index = Some d -> In (chosen options index d picked) options.
Proof.
  intros Hd. unfold chosen. rewrite Hd. cbn.
  destruct (options !! picked) as [a|] eqn:Ha; cbn;
    apply list_elem_of_In, list_elem_of_lookup; eauto.
Qed.

Lemma scale_of_in (i : Inputs) : In (scale_of i) [2; 4; 8].
Proof. apply (chosen_in [2; 4; 8] 1%nat 4). reflexivity. Qed.

Lemma format_of_in (i : Inputs) : In (format_of i) ["JPEG"; "PNG"].
Proof. apply (chosen_in ["JPEG"; "PNG"] 0%nat "JPEG"). reflexivity. Qed.

Lemma show_at (el : Element) (i : Inputs) (w : World) (s : Session)
      (p : list Element) {A} (k : unit -> Script A) :
  s_bind (show el) k i {| world := w; session := s; page := p |} =
  k tt i {| world := w; session := s; page := p ++ [el] |}.
Proof. reflexivity. Qed.

Lemma main_head (i : Inputs) (app : App) :
  main i app =
  (if String.eqb (text_input i) "" then
     show (Warning "⚠️ Veuillez entrer votre clé API pour continuer") ;;+
     s_stop Returned
   else
     credit_banner (text_input i) ;;+
     show (FileUploader "Choisir une image") ;;+
     let+ uploaded := input file_uploader in
     match uploaded with
     | None =>
         show (Info "📁 Veuillez sélectionner une image pour commencer") ;;+
         s_stop Returned
     | Some uploaded_file =>
         let+ scale :=
           st_selectbox "Facteur d'agrandissement" [2; 4; 8] 1 scale_choice in
         let+ format_type :=
           st_selectbox "Format de sortie" ["JPEG"; "PNG"] 0 format_choice in
         let+ size := PIL_Image_open (uf_value uploaded_file) in
         show (Info ("📐 Taille actuelle: " +:+ pretty (fst size) +:+ "x"
                     +:+ pretty (snd size) +:+ " → Nouvelle taille: "
                     +:+ pretty (fst size * scale) +:+ "x"
                     +:+ pretty (snd size * scale)
                     +:+ " pixels")) ;;+
         show (Markdown "---") ;;+
         show (Header "📤 Image d'origine") ;;+
         show (Picture ("Image originale (" +:+ pretty (fst size) +:+ "x"
                        +:+ pretty (snd size) +:+ ")")) ;;+
         show (Header "📥 Image améliorée") ;;+
         remember_upload uploaded_file ;;+
         result_column uploaded_file (text_input i) scale format_type
     end) i
    {| world := world app; session := session app;
       page := page app ++ page_head |}.
Proof.
  unfold main. unfold s_bind at 1, show at 1. cbn [fst snd world session page].
  do 4 rewrite show_at. unfold s_bind at 1, input at 1.
  rewrite <- !app_assoc. reflexivity.
Qed.

Lemma main_no_key (i : Inputs) (app : App) :
  text_input i = "" ->
  main i app =
  (inl Returned,
   {| world := world app; session := session app;
      page := page app ++ page_head
              ++ [Warning "⚠️ Veuillez entrer votre clé API pour continuer"]
   |}).
Proof.
  intros Hkey. rewrite main_head, Hkey. cbn [String.eqb].
  rewrite show_at. rewrite <- app_assoc. reflexivity.
Qed.

Lemma key_given (api_key : string) :
  api_key <> "" -> String.eqb api_key "" = false.
Proof. intros H. apply String.eqb_neq. exact H. Qed.

Lemma main_no_credit (i : Inputs) (app : App) (status : option bool)
      (msg : string) :
  text_input i <> "" ->
  fst (check_api_key_credits (text_input i) (world app)) = inr (status, msg) ->
  default false (image_processed (session app)) || default false status
  = false ->
  let w' := snd (check_api_key_credits (text_input i) (world app)) in
  main i app =
  (inl Returned,
   {| world := with_screen (screen w' ++ ["❌ " +:+ msg]) w';
      session := session app; page := page app ++ page_head |}).
Proof.
  intros Hkey Hcheck Hgate. cbv zeta.
  rewrite main_head, (key_given _ Hkey). unfold s_bind at 1.
  rewrite (credit_banner_run _ i
             {| world := world app; session := session app;
                page := page app ++ page_head |} status msg Hcheck).
  cbn [world session page]. rewrite Hgate. reflexivity.
Qed.

Lemma main_no_file (i : Inputs) (app : App) (status : option bool)
      (msg : string) :
  text_input i <> "" ->
  fst (check_api_key_credits (text_input i) (world app)) = inr (status, msg) ->
  default false (image_processed (session app)) || default false status
  = true ->
  file_uploader i = None ->
  main i app =
  (inl Returned,
   {| world := snd (check_api_key_credits (text_input i) (world app));
      session := session app;
      page := page app ++ page_head
              ++ [banner status msg; FileUploader "Choisir une image";
                  Info "📁 Veuillez sélectionner une image pour commencer"]
   |}).
Proof.
  intros Hkey Hcheck Hgate Hfile.
  rewrite main_head, (key_given _ Hkey). unfold s_bind at 1.
  rewrite (credit_banner_run _ i
             {| world := world app; session := session app;
                page := page app ++ page_head |} status msg Hcheck).
  cbn [world session page]. rewrite Hgate.
  rewrite show_at. unfold s_bind at 1, input at 1. rewrite Hfile.
  rewrite show_at. rewrite <- !app_assoc. reflexivity.
Qed.

Lemma main_bad_file (i : Inputs) (app : App) (status : option bool)
      (msg : string) (uploaded_file : UploadedFile) (name : string) :
  text_input i <> "" ->
  fst (check_api_key_credits (text_input i) (world app)) = inr (status, msg) ->
  default false (image_processed (session app)) || default false status
  = true ->
  file_uploader i = Some uploaded_file ->
  Image_open i (uf_value uploaded_file) = inl name ->
  main i app =
  (inl (UncaughtOther name),
   {| world := snd (check_api_key_credits (text_input i) (world app));
      session := session app;
      page := page app ++ page_head
              ++ [banner status msg; FileUploader "Choisir une image";
                  Selectbox "Facteur d'agrandissement";
                  Selectbox "Format de sortie"] |}).
Proof.
  intros Hkey Hcheck Hgate Hfile Hopen.
  rewrite main_head, (key_given _ Hkey). unfold s_bind at 1.
  rewrite (credit_banner_run _ i
             {| world := world app; session := session app;
                page := page app ++ page_head |} status msg Hcheck).
  cbn [world session page]. rewrite Hgate.
  rewrite show_at. unfold s_bind at 1, input at 1. rewrite Hfile.
  unfold s_bind at 1.
  rewrite (st_selectbox_chosen _ [2; 4; 8] 1%nat _ i _ 4 eq_refl).
  cbn [world session page]. unfold s_bind at 1.
  rewrite (st_selectbox_chosen _ ["JPEG"; "PNG"] 0%nat _ i _ "JPEG" eq_refl).
  cbn [world session page]. unfold s_bind at 1.
  unfold PIL_Image_open at 1, s_bind at 1, input at 1. rewrite Hopen.
  unfold s_stop. rewrite <- !app_assoc. reflexivity.
Qed.

Lemma main_with_file (i : Inputs) (app : App) (status : option bool)
      (msg : string) (uploaded_file : UploadedFile) (size : Z * Z) :
  text_input i <> "" ->
  fst (check_api_key_credits (text_input i) (world app)) = inr (status, msg) ->
  default false (image_processed (session app)) || default false status
  = true ->
  file_uploader i = Some uploaded_file ->
  Image_open i (uf_value uploaded_file) = inr size ->
  main i app =
  result_column uploaded_file (text_input i) (scale_of i) (format_of i) i
    {| world := snd (check_api_key_credits (text_input i) (world app));
       session := remembered uploaded_file (session app);
       page := page app ++ page_head
               ++ page_upload status msg size (scale_of i) |}.
Proof.
  intros Hkey Hcheck Hgate Hfile Hopen.
  rewrite main_head, (key_given _ Hkey). unfold s_bind at 1.
  rewrite (credit_banner_run _ i
             {| world := world app; session := session app;
                page := page app ++ page_head |} status msg Hcheck).
  cbn [world session page]. rewrite Hgate.
  rewrite show_at. unfold s_bind at 1, input at 1. rewrite Hfile.
  unfold s_bind at 1.
  rewrite (st_selectbox_chosen _ [2; 4; 8] 1%nat _ i _ 4 eq_refl).
  cbn [world session page]. unfold s_bind at 1.
  rewrite (st_selectbox_chosen _ ["JPEG"; "PNG"] 0%nat _ i _ "JPEG" eq_refl).
  cbn [world session page]. unfold s_bind at 1.
  rewrite (PIL_Image_open_run _ i _ size Hopen).
  do 5 rewrite show_at. unfold s_bind at 1. rewrite remember_upload_run.
  cbn [world session page].
  unfold page_upload. rewrite <- !app_assoc. reflexivity.
Qed.

Lemma result_column_idle (uploaded_file : UploadedFile) (api_key : string)
      (scale : Z) (format_type : string) (i : Inputs) (w : World)
      (s : Session) (p : list Element) :
  image_processed s = Some false ->
  button i = false ->
  result_column uploaded_file api_key scale format_type i
    {| world := w; session := s; page := p |} =
  (inr tt, {| world := w; session := s;
              page := p ++ [Button "✨ Améliorer l'image"] |}).
Proof.
  intros Hflag Hidle. unfold result_column.
  unfold s_bind at 1. rewrite (attribute_at _ i _ _ _ _ Hflag). cbn [negb].
  unfold s_bind at 1. rewrite (process_upload_idle _ _ _ _ i _ Hidle).
  cbn [world session page]. apply summary_idle. cbn [session].
  rewrite Hflag. reflexivity.
Qed.

Lemma result_column_clicked (uploaded_file : UploadedFile)
      (api_key : string) (scale : Z) (format_type : string) (i : Inputs)
      (w : World) (s : Session) (p : list Element) (ok : bool)
      (out : option (list byte)) (details : gmap string jval) :
  image_processed s = Some false ->
  button i = true ->
  fst (enhance_image (uf_value uploaded_file) api_key scale format_type w)
  = inr (ok, out, details) ->
  let w' := snd (enhance_image (uf_value uploaded_file) api_key scale
                   format_type w) in
  result_column uploaded_file api_key scale format_type i
    {| world := w; session := s; page := p |} =
  if ok then
    (inl Rerun,
     {| world := w';
        session :=
          {| image_processed := Some true; output_data := Some out;
             result := Some (Some details);
             processing_time := Some (Some (clock w' - clock w));
             last_uploaded_file := last_uploaded_file s |};
        page := p ++ [Button "✨ Améliorer l'image"] |})
  else
    (inr tt,
     {| world :=
          with_screen
            (screen w' ++ ["❌ Erreur lors du traitement: "
                           +:+ get_text details "error" "Erreur inconnue"])
            w';
        session := s;
        page := p ++ [Button "✨ Améliorer l'image"] |}).
Proof.
  intros Hflag Hclick Hrun. cbv zeta. unfold result_column.
  unfold s_bind at 1. rewrite (attribute_at _ i _ _ _ _ Hflag). cbn [negb].
  unfold s_bind at 1.
  rewrite (process_upload_clicked uploaded_file api_key scale format_type i
             {| world := w; session := s; page := p |} ok out details
             Hclick Hrun).
  cbn [world session page]. destruct ok; [reflexivity|].
  apply summary_idle. cbn [session]. rewrite Hflag. reflexivity.
Qed.


Lemma service_requests_check (w : World) (api_key : string) :
  service_requests (snd (check_api_key_credits api_key w))
  = service_requests w.
Proof.
  destruct (check_frame w api_key) as (_ & _ & _ & _ & _ & _ & Hsent).
  unfold service_requests. rewrite Hsent, flat_map_app. cbn.
  apply app_nil_r.
Qed.

Lemma local_bind {A B} (m : Script A) (k : A -> Script B) (i : Inputs) :
  local m i -> (forall a, local (k a) i) -> local (s_bind m k) i.
Proof.
  intros Hm Hk app. specialize (Hm app). unfold s_bind, caught in *.
  destruct (m i app) as [[s|a] app'] eqn:Hrun; cbn [fst snd] in *.
  - destruct Hm as [Hw Hc]. split; [exact Hw|].
    intros e He. apply (Hc e). inversion He. reflexivity.
  - destruct (Hk a app') as [Hw Hc]. split; [|exact Hc].
    rewrite Hw. apply Hm.
Qed.

Lemma local_show (el : Element) (i : Inputs) : local (show el) i.
Proof. intros app. split; [reflexivity | intros e; discriminate]. Qed.

Lemma local_input {A} (f : Inputs -> A) (i : Inputs) : local (input f) i.
Proof. intros app. split; [reflexivity | intros e; discriminate]. Qed.

Lemma local_state {A} (f : Session -> A) (i : Inputs) : local (state f) i.
Proof. intros app. split; [reflexivity | intros e; discriminate]. Qed.

Lemma local_ret {A} (a : A) (i : Inputs) : local (s_ret a) i.
Proof. intros app. split; [reflexivity | intros e; discriminate]. Qed.

Lemma local_other {A} (name : string) (i : Inputs) :
  local (s_stop (A := A) (UncaughtOther name)) i.
Proof. intros app. split; [reflexivity | intros e; discriminate]. Qed.

Lemma local_attribute {A} (field : Session -> option A) (i : Inputs) :
  local (attribute field) i.
Proof.
  apply local_bind; [apply local_state|].
  intros [a|]; [apply local_ret | apply local_other].
Qed.

Lemma local_PIL_Image_open (data : list byte) (i : Inputs) :
  local (PIL_Image_open data) i.
Proof.
  apply local_bind; [apply local_input|].
  intros [name|size]; [apply local_other | apply local_ret].
Qed.

(** Go through a part of the page that is built from local steps. *)
Ltac local_steps :=
  repeat first
    [ apply local_show | apply local_input | apply local_state
    | apply local_ret | apply local_other | apply local_attribute
    | apply local_PIL_Image_open
    | apply local_bind; [|intros ?]
    | match goal with
      | |- local (match ?x with _ => _ end) _ => destruct x
      end ].

Lemma local_show_result (uploaded_file : UploadedFile) (scale : Z)
      (format_type : string) (i : Inputs) :
  local (show_result uploaded_file scale format_type) i.
Proof. unfold show_result. local_steps. Qed.

Lemma local_summary (scale : Z) (i : Inputs) : local (summary scale) i.
Proof. unfold summary. local_steps. Qed.

Lemma remembered_flag_false (uploaded_file : UploadedFile) (s : Session) :
  default false (image_processed s) = false ->
  image_processed (remembered uploaded_file s) = Some false.
Proof.
  intros Hflag.
  destruct (remembered_has_flag uploaded_file s) as ([|] & Hb & Htrue);
    [|exact Hb].
  rewrite (Htrue eq_refl) in Hflag. discriminate.
Qed.

(** Every run of [main]: what it has done to the world, and how it ends. *)
Lemma main_outcome (i : Inputs) (app : App) :
  caught (main i app)
  /\ (no_call (world app) (main i app)
      \/ exists uploaded_file,
           button i = true
           /\ text_input i <> ""
           /\ file_uploader i = Some uploaded_file
           /\ (default false (image_processed (session app)) = true
               \/ exists msg,
                    fst (check_api_key_credits (text_input i) (world app))
                    = inr (Some true, msg))
           /\ service_requests (world (snd (main i app)))
              = service_requests (world app)
                ++ [request_payload (uf_value uploaded_file) (scale_of i)
                                    (format_of i)]).
Proof.
  destruct (string_dec (text_input i) "") as [Hkey|Hkey].
  { rewrite (main_no_key i app Hkey).
    split; [intros e; discriminate | left; repeat split]. }
  destruct (check_returns (world app) (text_input i))
    as (status & msg & Hcheck).
  pose proof (check_frame (world app) (text_input i))
    as (Hacc & Hlog & _).
  pose proof (service_requests_check (world app) (text_input i)) as Hreq.
  destruct (default false (image_processed (session app))
            || default false status) eqn:Hgate.
  2:{ rewrite (main_no_credit i app status msg Hkey Hcheck Hgate).
      split; [intros e; discriminate | left; repeat split; assumption]. }
  destruct (file_uploader i) as [uploaded_file|] eqn:Hfile.
  2:{ rewrite (main_no_file i app status msg Hkey Hcheck Hgate Hfile).
      split; [intros e; discriminate | left; repeat split; assumption]. }
  destruct (Image_open i (uf_value uploaded_file)) as [name|size] eqn:Hopen.
  { rewrite (main_bad_file i app status msg uploaded_file name
               Hkey Hcheck Hgate Hfile Hopen).
    split; [intros e; discriminate | left; repeat split; assumption]. }
  rewrite (main_with_file i app status msg uploaded_file size
             Hkey Hcheck Hgate Hfile Hopen).
  destruct (remembered_has_flag uploaded_file (session app))
    as ([|] & Hflag & _).
  - (* a result is on display *)
    match goal with
    | |- context [result_column ?f ?k ?sc ?fm i ?a] =>
        assert (Hcol : result_column f k sc fm i a
                       = (show_result f sc fm ;;+ summary sc) i a)
    end.
    { unfold result_column. unfold s_bind at 1.
      rewrite (attribute_at _ i _ _ _ _ Hflag). reflexivity. }
    rewrite Hcol.
    destruct (local_bind (show_result uploaded_file (scale_of i) (format_of i))
                (fun _ => summary (scale_of i)) i
                (local_show_result _ _ _ i)
                (fun _ => local_summary _ i)
                {| world := snd (check_api_key_credits (text_input i)
                                   (world app));
                   session := remembered uploaded_file (session app);
                   page := page app ++ page_head
                           ++ page_upload status msg size (scale_of i) |})
      as [Hworld Hcaught].
    split; [exact Hcaught|]. left. unfold no_call. rewrite Hworld.
    cbn [world]. repeat split; assumption.
  - destruct (button i) eqn:Hclick.
    + (* the button was clicked *)
      destruct (enhance_returns
                  (snd (check_api_key_credits (text_input i) (world app)))
                  (uf_value uploaded_file) (text_input i) (scale_of i)
                  (format_of i)) as ([[ok out] details] & Hrun).
      rewrite (result_column_clicked uploaded_file (text_input i) (scale_of i)
                 (format_of i) i _ _ _ ok out details Hflag Hclick Hrun).
      split; [destruct ok; intros e; discriminate|].
      right. exists uploaded_file.
      split; [reflexivity|]. split; [exact Hkey|]. split; [reflexivity|].
      split.
      * destruct (default false (image_processed (session app)));
          [left; reflexivity|].
        right. exists msg. cbn [orb] in Hgate.
        destruct status as [[|]|]; try discriminate Hgate. exact Hcheck.
      * rewrite <- Hreq.
        rewrite <- (service_requests_enhance_image _ _ (text_input i)).
        destruct ok; reflexivity.
    + rewrite (result_column_idle uploaded_file (text_input i) (scale_of i)
                 (format_of i) i _ _ _ Hflag Hclick).
      split; [intros e; discriminate | left; repeat split; assumption].
Qed.


Lemma gate_open_status (s : Session) (msg : string) :
  default false (image_processed s) || default false (Some true) = true.
Proof. apply orb_true_r. Qed.



Lemma main_click (i : Inputs) (app : App) (uploaded_file : UploadedFile)
      (size : Z * Z) (msg : string) (ok : bool) (out : option (list byte))
      (details : gmap string jval) :
  text_input i <> "" ->
  file_uploader i = Some uploaded_file ->
  Image_open i (uf_value uploaded_file) = inr size ->
  default false (image_processed (session app)) = false ->
  fst (check_api_key_credits (text_input i) (world app))
  = inr (Some true, msg) ->
  button i = true ->
  let w1 := snd (check_api_key_credits (text_input i) (world app)) in
  fst (enhance_image (uf_value uploaded_file) (text_input i) (scale_of i)
         (format_of i) w1) = inr (ok, out, details) ->
  let w2 := snd (enhance_image (uf_value uploaded_file) (text_input i)
                   (scale_of i) (format_of i) w1) in
  let shown := page app ++ page_head
               ++ page_upload (Some true) msg size (scale_of i)
               ++ [Button "✨ Améliorer l'image"] in
  main i app =
  if ok then
    (inl Rerun,
     {| world := w2;
        session :=
          {| image_processed := Some true; output_data := Some out;
             result := Some (Some details);
             processing_time := Some (Some (clock w2 - clock w1));
             last_uploaded_file := Some (uf_name uploaded_file) |};
        page := shown |})
  else
    (inr tt,
     {| world :=
          with_screen
            (screen w2 ++ ["❌ Erreur lors du traitement: "
                           +:+ get_text details "error" "Erreur inconnue"])
            w2;
        session := remembered uploaded_file (session app);
        page := shown |}).
Proof.
  intros Hkey Hfile Hopen Hflag Hcheck Hclick w1 Hrun w2 shown.
  rewrite (main_with_file i app (Some true) msg uploaded_file size Hkey
             Hcheck (gate_open_status _ msg) Hfile Hopen).
  rewrite (result_column_clicked uploaded_file (text_input i) (scale_of i)
             (format_of i) i _ _ _ ok out details
             (remembered_flag_false uploaded_file _ Hflag) Hclick Hrun).
  subst shown. rewrite <- !app_assoc. destruct ok; reflexivity.
Qed.

(** ** The page: what one run of [main] does *)

(** X15.
    Whatever the inputs and the state, one run of [main] either sends
    nothing to the enhancement service and leaves the accounts and the log
    table as they were, or the button was clicked in this run, with a key
    typed and a file selected, and exactly one request went to the service,
    for the bytes of that file at the scale and format selected.  In the
    second case a result was on display when the run started, or Check had
    answered Ok for the key. *)
Theorem main_calls_the_service_only_on_a_click (i : Inputs) (app : App) :
  no_call (world app) (main i app)
  \/ exists uploaded_file,
       button i = true
       /\ text_input i <> ""
       /\ file_uploader i = Some uploaded_file
       /\ (default false (image_processed (session app)) = true
           \/ exists msg,
                fst (check_api_key_credits (text_input i) (world app))
                = inr (Some true, msg))
       /\ service_requests (world (snd (main i app)))
          = service_requests (world app)
            ++ [request_payload (uf_value uploaded_file) (scale_of i)
                                (format_of i)].
Proof. exact (proj2 (main_outcome i app)). Qed.

(** X16.
    No fault of the account store, of the log store or of the service ends
    a run of [main] with an exception: [get_records], [create_record] and
    [update_record] catch the request errors, [enhance_image] catches every
    exception, and [main] calls nothing else that reaches them. *)
Theorem main_survives_store_and_service_faults (i : Inputs) (app : App)
        (e : exn) :
  fst (main i app) <> inl (Uncaught e).
Proof. exact (proj1 (main_outcome i app) e). Qed.

(** X17.
    Without a key the run stops at the warning: nothing is sent to a store
    or to the service, the session state is untouched and neither the
    credits nor the uploader are shown. *)
Theorem main_asks_for_the_key_first (i : Inputs) (app : App) :
  text_input i = "" ->
  fst (main i app) = inl Returned
  /\ world (snd (main i app)) = world app
  /\ session (snd (main i app)) = session app
  /\ page (snd (main i app))
     = page app ++ page_head
       ++ [Warning "⚠️ Veuillez entrer votre clé API pour continuer"].
Proof.
  intros Hkey. rewrite (main_no_key i app Hkey). repeat split.
Qed.

Lemma main_asks_for_the_key_first_witness :
  fst (main (run_inputs "" (Some photo) true) (first_run world_spent))
  = inl Returned
  /\ world (snd (main (run_inputs "" (Some photo) true)
                   (first_run world_spent))) = world_spent.
Proof.
  destruct (main_asks_for_the_key_first (run_inputs "" (Some photo) true)
              (first_run world_spent) eq_refl) as (Hend & Hworld & _).
  split; [exact Hend | exact Hworld].
Defined.

(** X18.
    With a key and no result on display, a status of Check other than Ok
    (no credit left, key not found, store out of reach) stops the run at
    the error banner that carries the message of Check: the uploader and
    the button are not shown, the session state is untouched, and nothing is
    sent to the service even when the button is reported as clicked. *)
Theorem main_stops_without_credit (i : Inputs) (app : App)
        (status : option bool) (msg : string) :
  text_input i <> "" ->
  default false (image_processed (session app)) = false ->
  fst (check_api_key_credits (text_input i) (world app)) = inr (status, msg) ->
  status <> Some true ->
  let w' := snd (check_api_key_credits (text_input i) (world app)) in
  main i app =
  (inl Returned,
   {| world := with_screen (screen w' ++ ["❌ " +:+ msg]) w';
      session := session app; page := page app ++ page_head |})
  /\ service_requests (world (snd (main i app)))
     = service_requests (world app).
Proof.
  intros Hkey Hflag Hcheck Hstatus w'.
  assert (Hgate : default false (image_processed (session app))
                  || default false status = false).
  { rewrite Hflag. destruct status as [[|]|]; [congruence | | ]; reflexivity. }
  rewrite (main_no_credit i app status msg Hkey Hcheck Hgate).
  split; [reflexivity|]. apply service_requests_check.
Qed.

(** The five credits of "K1" are used: a click is not followed by a call. *)
Lemma main_stops_without_credit_witness :
  fst (main (run_inputs "K1" (Some photo) true) (first_run world_spent))
  = inl Returned
  /\ screen (world (snd (main (run_inputs "K1" (Some photo) true)
                           (first_run world_spent))))
     = ["❌ Plus de crédits restants (utilisés: 5/5)"]
  /\ service_requests (world (snd (main (run_inputs "K1" (Some photo) true)
                                     (first_run world_spent)))) = [].
Proof.
  assert (Hkey : text_input (run_inputs "K1" (Some photo) true) <> "")
    by discriminate.
  assert (Hstatus : Some false <> Some true) by discriminate.
  destruct (main_stops_without_credit (run_inputs "K1" (Some photo) true)
              (first_run world_spent) (Some false)
              "Plus de crédits restants (utilisés: 5/5)"
              Hkey eq_refl eq_refl Hstatus) as [Hrun Hreq].
  rewrite Hreq. rewrite Hrun. repeat split.
Defined.





(** X21.
    A click that succeeds: with a key for which Check answers Ok, a file
    PIL can read and no result on display, a run in which the button is
    clicked and [enhance_image] returns ok = true stops at [st.rerun()],
    after the button and before any summary, with the output, the details
    and the time elapsed around the call stored in the session state and
    [image_processed] set. *)
Theorem click_stores_the_result_and_reruns (i : Inputs) (app : App)
        (uploaded_file : UploadedFile) (size : Z * Z) (msg : string)
        (out : option (list byte)) (details : gmap string jval) :
  text_input i <> "" ->
  file_uploader i = Some uploaded_file ->
  Image_open i (uf_value uploaded_file) = inr size ->
  default false (image_processed (session app)) = false ->
  fst (check_api_key_credits (text_input i) (world app))
  = inr (Some true, msg) ->
  button i = true ->
  let w1 := snd (check_api_key_credits (text_input i) (world app)) in
  fst (enhance_image (uf_value uploaded_file) (text_input i) (scale_of i)
         (format_of i) w1) = inr (true, out, details) ->
  let w2 := snd (enhance_image (uf_value uploaded_file) (text_input i)
                   (scale_of i) (format_of i) w1) in
  main i app =
  (inl Rerun,
   {| world := w2;
      session :=
        {| image_processed := Some true; output_data := Some out;
           result := Some (Some details);
           processing_time := Some (Some (clock w2 - clock w1));
           last_uploaded_file := Some (uf_name uploaded_file) |};
      page := page app ++ page_head
              ++ page_upload (Some true) msg size (scale_of i)
              ++ [Button "✨ Améliorer l'image"] |}).
Proof.
  intros Hkey Hfile Hopen Hflag Hcheck Hclick w1 Hrun w2.
  exact (main_click i app uploaded_file size msg true out details Hkey Hfile
           Hopen Hflag Hcheck Hclick Hrun).
Qed.

(** The key "K1" has two credits left and the service enhances. *)
Lemma click_stores_the_result_and_reruns_witness :
  fst (main (run_inputs "K1" (Some photo) true)
         (first_run (world_healthy service_enhances))) = inl Rerun
  /\ output_data
       (session (snd (main (run_inputs "K1" (Some photo) true)
                        (first_run (world_healthy service_enhances)))))
     = Some (Some Man).
Proof.
  assert (Hkey : text_input (run_inputs "K1" (Some photo) true) <> "")
    by discriminate.
  rewrite (click_stores_the_result_and_reruns
             (run_inputs "K1" (Some photo) true)
             (first_run (world_healthy service_enhances)) photo (2, 3)
             "2 crédits restants (utilisés: 3/5)" (Some Man)
             {[ "success" := JBool true;
                "output_image" := JStr "TWFu";
                "output_size" := JStr "8x8" ]}
             Hkey eq_refl eq_refl eq_refl eq_refl eq_refl eq_refl).
  split; reflexivity.
Defined.

(** X22.
    A click that fails: in the same situation, when [enhance_image] returns
    ok = false the run goes on to its end.  The details returned always hold
    an error, so the default of [result.get] at line 350 is never used; the
    banner shows that error after the fixed prefix; [image_processed] stays
    false, so the button is shown again and no summary is; the accounts are
    as they were. *)
Theorem failed_click_is_reported (i : Inputs) (app : App)
        (uploaded_file : UploadedFile) (size : Z * Z) (msg : string)
        (out : option (list byte)) (details : gmap string jval) :
  text_input i <> "" ->
  file_uploader i = Some uploaded_file ->
  Image_open i (uf_value uploaded_file) = inr size ->
  default false (image_processed (session app)) = false ->
  fst (check_api_key_credits (text_input i) (world app))
  = inr (Some true, msg) ->
  button i = true ->
  let w1 := snd (check_api_key_credits (text_input i) (world app)) in
  fst (enhance_image (uf_value uploaded_file) (text_input i) (scale_of i)
         (format_of i) w1) = inr (false, out, details) ->
  let w2 := snd (enhance_image (uf_value uploaded_file) (text_input i)
                   (scale_of i) (format_of i) w1) in
  exists err,
    details !! "error" = Some err
    /\ main i app =
       (inr tt,
        {| world :=
             with_screen
               (screen w2 ++ ["❌ Erreur lors du traitement: " +:+ py_str err])
               w2;
           session := remembered uploaded_file (session app);
           page := page app ++ page_head
                   ++ page_upload (Some true) msg size (scale_of i)
                   ++ [Button "✨ Améliorer l'image"] |})
    /\ image_processed (remembered uploaded_file (session app)) = Some false
    /\ accounts w2 = accounts (world app).
Proof.
  intros Hkey Hfile Hopen Hflag Hcheck Hclick w1 Hrun w2.
  assert (Herr : exists err, details = {[ "error" := err ]}).
  { destruct (enhance_image_cases w1 (uf_value uploaded_file) (text_input i)
                (scale_of i) (format_of i))
      as [(err & tag & e & w' & Hcase & _)
         |(result & output_data & e & w3 & w' & Hcase & _)];
      rewrite Hcase in Hrun; cbn [fst] in Hrun.
    - exists err. unfold failure in Hrun. congruence.
    - discriminate Hrun. }
  destruct Herr as [err ->]. exists err.
  split; [apply lookup_singleton_eq|].
  split; [|split].
  - rewrite (main_click i app uploaded_file size msg false out _ Hkey Hfile
               Hopen Hflag Hcheck Hclick Hrun).
    unfold get_text. rewrite lookup_singleton_eq. reflexivity.
  - apply remembered_flag_false. exact Hflag.
  - destruct (failed_run_leaves_accounts w1 (uf_value uploaded_file)
                (text_input i) (scale_of i) (format_of i) out _ Hrun)
      as [Hacc _].
    unfold w2. rewrite Hacc.
    apply (check_frame (world app) (text_input i)).
Qed.

(** The service answers 503 to the click. *)
Lemma failed_click_is_reported_witness :
  fst (main (run_inputs "K1" (Some photo) true)
         (first_run (world_healthy service_503))) = inr tt
  /\ screen (world (snd (main (run_inputs "K1" (Some photo) true)
                           (first_run (world_healthy service_503)))))
     = ["❌ Erreur lors du traitement: HTTP 503: Service Unavailable"].
Proof.
  assert (Hkey : text_input (run_inputs "K1" (Some photo) true) <> "")
    by discriminate.
  destruct (failed_click_is_reported
              (run_inputs "K1" (Some photo) true)
              (first_run (world_healthy service_503)) photo (2, 3)
              "2 crédits restants (utilisés: 3/5)" None
              {[ "error" := JStr "HTTP 503: Service Unavailable" ]}
              Hkey eq_refl eq_refl eq_refl eq_refl eq_refl eq_refl)
    as (err & Herr & Hrun & _).
  rewrite Hrun. rewrite lookup_singleton_eq in Herr.
  injection Herr as <-. split; reflexivity.
Defined.


